(** * richery: a shallow embedding of the layout pipeline

    The development follows the Python sources file by file:
    [richery/ansitool.py] (the SGR state machine and the escape scanner),
    [richery/textwork.py] (segmentation and punctuation binding),
    [richery/colordef.py] (colours) and [richery/canvas.py] (rectangles,
    font families, the line layout loop).

    Conventions of the embedding.
    - A Python [int] is a [Z]; a Python [str] is the list of its code
      points ([N]), so that [len] and indexing count code points as Python
      does.
    - A Python [float] holding a cursor coordinate is an exact rational
      ([Q]); every concrete evaluation below only meets values that are
      exactly representable in binary floating point.
    - A function that may raise returns a [result]; the state a raising
      call had already mutated is not kept.
    - Builtins of the interpreter that depend on the Unicode database
      ([str.isspace], [unicodedata.east_asian_width], [int()]) and the
      glyph metrics of Pillow are Section variables. *)

From Stdlib Require Import ZArith NArith QArith List Bool String Ascii Lia.
From Stdlib Require Import Permutation.
From Equations Require Import Equations.
Import ListNotations.

Local Open Scope Z_scope.

(** ** Python prelude *)

Inductive exn : Type :=
| IndexError
| ValueError
| TypeError
| ArithmeticError
| RuntimeError.

Inductive result (A : Type) : Type :=
| Ok (a : A)
| Raise (e : exn).

Arguments Ok {A} a.
Arguments Raise {A} e.

Definition bind {A B : Type} (c : result A) (k : A -> result B) : result B :=
  match c with
  | Ok a => k a
  | Raise e => Raise e
  end.

Notation "x <- c ;; k" := (bind c (fun x => k))
  (at level 61, c at next level, right associativity).
Notation "' p <- c ;; k" := (bind c (fun p => k))
  (at level 61, p pattern, c at next level, right associativity).

(** Remembering the equation of a scrutinee in a definition by cases. *)
Definition inspect {A : Type} (a : A) : {b : A | a = b} := exist _ a eq_refl.

(** A code point, and a [str] as the sequence of its code points. *)
Definition char : Type := N.
Definition str : Type := list char.

Definition ESC : char := 27%N.

Definition char_eqb (a b : char) : bool := N.eqb a b.

(** An ASCII literal as a [str]. *)
Fixpoint lit (s : string) : str :=
  match s with
  | EmptyString => []
  | String a r => N_of_ascii a :: lit r
  end.

(** [len(l)] as a Python integer. *)
Definition len {A : Type} (l : list A) : Z := Z.of_nat (List.length l).

(** The truth value of a sequence: it is not empty. *)
Definition truthy {A : Type} (l : list A) : bool :=
  match l with
  | [] => false
  | _ :: _ => true
  end.

(** [l[i]] with Python's negative indices; out of range raises. *)
Definition py_index {A : Type} (l : list A) (i : Z) : result A :=
  let j := if i <? 0 then i + len l else i in
  if j <? 0 then Raise IndexError
  else match nth_error l (Z.to_nat j) with
       | Some a => Ok a
       | None => Raise IndexError
       end.

(** Slice bounds as Python normalises them for a sequence of [n] items. *)
Definition clamp_index (n i : Z) : Z :=
  if i <? 0 then Z.max 0 (i + n) else Z.min i n.

(** [l[a:]] and [l[a:b]]. *)
Definition py_slice_from {A : Type} (l : list A) (a : Z) : list A :=
  skipn (Z.to_nat (clamp_index (len l) a)) l.

Definition py_slice {A : Type} (l : list A) (a b : Z) : list A :=
  let a' := clamp_index (len l) a in
  let b' := clamp_index (len l) b in
  firstn (Z.to_nat (b' - a')) (skipn (Z.to_nat a') l).

(** The position of the first item satisfying [p], as the generator
    expressions under [next(...)] compute it. *)
Fixpoint first_index {A : Type} (p : A -> bool) (l : list A) : option nat :=
  match l with
  | [] => None
  | a :: r => if p a then Some O
              else match first_index p r with
                   | Some i => Some (S i)
                   | None => None
                   end
  end.

(** [p in s] on strings: [p] occurs in [s] as a substring. *)
Fixpoint prefixb (p s : str) : bool :=
  match p, s with
  | [], _ => true
  | _ :: _, [] => false
  | a :: p', b :: s' => char_eqb a b && prefixb p' s'
  end.

Fixpoint str_in (p s : str) : bool :=
  prefixb p s || match s with
                 | [] => false
                 | _ :: r => str_in p r
                 end.

(** [l.index(a)]: the first position holding [a]; absent raises. *)
Fixpoint py_find {A : Type} (eqb : A -> A -> bool) (a : A) (l : list A)
  : result Z :=
  match l with
  | [] => Raise ValueError
  | b :: r => if eqb b a then Ok 0 else i <- py_find eqb a r ;; Ok (i + 1)
  end.

(** [round(a / 100)] for an integer [a]: the nearest integer, a tie going to
    the even neighbour.  For [100 <= a <= 900] the float quotient is either
    exactly a half-integer or at least 1/100 away from one, so the float
    computation and the exact one agree. *)
Definition round_div100 (a : Z) : Z :=
  let q := a / 100 in
  let r := a mod 100 in
  if r <? 50 then q
  else if 50 <? r then q + 1
  else if Z.even q then q else q + 1.

(** ** richery/ansitool.py *)

Module SGRState.

Record t : Type := mk {
  power : Z;
  italic : bool;
  uline : Z;
  hline : Z;
  strike : bool;
  font : Z;
  fg_default : Z;
  fg : Z;
  fg_rgb : option (list Z);
  dot : bool
}.

(** The dataclass defaults. *)
Definition default : t := mk 0 false 0 0 false 0 0 0 None false.

Definition with_power (s : t) (v : Z) : t :=
  mk v (italic s) (uline s) (hline s) (strike s) (font s)
     (fg_default s) (fg s) (fg_rgb s) (dot s).
Definition with_italic (s : t) (v : bool) : t :=
  mk (power s) v (uline s) (hline s) (strike s) (font s)
     (fg_default s) (fg s) (fg_rgb s) (dot s).
Definition with_uline (s : t) (v : Z) : t :=
  mk (power s) (italic s) v (hline s) (strike s) (font s)
     (fg_default s) (fg s) (fg_rgb s) (dot s).
Definition with_hline (s : t) (v : Z) : t :=
  mk (power s) (italic s) (uline s) v (strike s) (font s)
     (fg_default s) (fg s) (fg_rgb s) (dot s).
Definition with_strike (s : t) (v : bool) : t :=
  mk (power s) (italic s) (uline s) (hline s) v (font s)
     (fg_default s) (fg s) (fg_rgb s) (dot s).
Definition with_font (s : t) (v : Z) : t :=
  mk (power s) (italic s) (uline s) (hline s) (strike s) v
     (fg_default s) (fg s) (fg_rgb s) (dot s).
Definition with_fg (s : t) (v : Z) : t :=
  mk (power s) (italic s) (uline s) (hline s) (strike s) (font s)
     (fg_default s) v (fg_rgb s) (dot s).
Definition with_fg_rgb (s : t) (v : option (list Z)) : t :=
  mk (power s) (italic s) (uline s) (hline s) (strike s) (font s)
     (fg_default s) (fg s) v (dot s).
Definition with_dot (s : t) (v : bool) : t :=
  mk (power s) (italic s) (uline s) (hline s) (strike s) (font s)
     (fg_default s) (fg s) (fg_rgb s) v.

(** The local variables of one [set_state] call. *)
Record locals : Type := mkLocals {
  op38 : bool;
  op38_256 : bool;
  op38_24 : Z;
  op38_24_tmp : list Z
}.

(** Their values on entry of every call. *)
Definition entry : locals := mkLocals false false 0 [].

(** The [if op == 0: ... elif ...] chain at the end of the loop body.  The
    [else] branch only emits a warning. *)
Definition dispatch (s : t) (l : locals) (op : Z) : t * locals :=
  if op =? 0 then
    (mk 0 false 0 0 false 0 (fg_default s) (fg_default s) None false, l)
  else if op =? 1 then (with_power s (power s + 1), l)
  else if op =? 2 then (with_power s (power s - 1), l)
  else if op =? 3 then (with_italic s true, l)
  else if op =? 4 then (with_uline s (uline s + 1), l)
  else if op =? 9 then (with_strike s true, l)
  else if (10 <=? op) && (op <=? 19) then (with_font s (op - 10), l)
  else if op =? 23 then (with_italic s false, l)
  else if op =? 24 then (with_uline s (uline s - 1), l)
  else if op =? 29 then (with_strike s false, l)
  else if (30 <=? op) && (op <=? 37) then
    (with_fg_rgb (with_fg s (op - 30)) None, l)
  else if op =? 38 then
    (s, mkLocals true (op38_256 l) (op38_24 l) (op38_24_tmp l))
  else if op =? 39 then (with_fg s (fg_default s), l)
  else if op =? 53 then (with_hline s (hline s + 1), l)
  else if op =? 55 then (with_hline s (hline s - 1), l)
  else if op =? 64 then (with_dot s true, l)
  else if op =? 65 then (with_dot s false, l)
  else if (90 <=? op) && (op <=? 97) then
    (with_fg_rgb (with_fg s (op - 82)) None, l)
  else (s, l).

(** One iteration of [for op in opcodes]. *)
Definition step (sl : t * locals) (op : Z) : t * locals :=
  let (s, l) := sl in
  if op38_256 l then
    (with_fg_rgb (with_fg s op) None,
     mkLocals false false (op38_24 l) (op38_24_tmp l))
  else if negb (op38_24 l =? 0) then
    let tmp := op38_24_tmp l ++ [op] in
    let n := op38_24 l - 1 in
    if n =? 0 then (with_fg_rgb s (Some tmp), mkLocals false false n tmp)
    else (s, mkLocals (op38 l) (op38_256 l) n tmp)
  else if op38 l then
    if op =? 5 then (s, mkLocals (op38 l) true (op38_24 l) (op38_24_tmp l))
    else if op =? 2 then (s, mkLocals (op38 l) (op38_256 l) 3 (op38_24_tmp l))
    else dispatch (with_fg_rgb s None)
                  (mkLocals false false (op38_24 l) (op38_24_tmp l)) op
  else dispatch s l op.

(** The loop, from given locals. *)
Definition run (sl : t * locals) (opcodes : list Z) : t * locals :=
  fold_left step opcodes sl.

(** [self.set_state] on the opcodes: the locals start at [entry] and are dropped
    when the call returns. *)
Definition set_state (s : t) (opcodes : list Z) : t :=
  fst (run (s, entry) opcodes).

End SGRState.

(** [findcsiend(text)]. *)
Definition is_final_byte (c : char) : bool :=
  (64 <=? c)%N && (c <? 127)%N.

Definition findcsiend (text : str) : Z :=
  match first_index is_final_byte (py_slice_from text 2) with
  | Some i => Z.of_nat i + 3
  | None => len text
  end.

(** [CSI_REGEX] and [csi_split].  The expression is the escape character,
    an opening bracket, a longest run of parameter bytes (0x30..0x3f), one
    operation byte (0x40..0x7e), then a longest run of characters other
    than the escape character.  The two byte classes are disjoint, so a
    match at a position exists exactly when the character after the longest
    parameter run is an operation byte; [findall] takes the matches from
    left to right, resuming after each match and one character further on
    where none starts. *)
Module Csi.

Record CSIBlock : Type := mkCSIBlock {
  cc : str;
  par : str;
  op : str;
  t : str
}.

Definition is_param_byte (c : char) : bool :=
  (48 <=? c)%N && (c <=? 63)%N.

Definition not_esc (c : char) : bool := negb (char_eqb c ESC).

(** The longest prefix whose characters satisfy [p], and what follows. *)
Fixpoint span (p : char -> bool) (s : str) : str * str :=
  match s with
  | [] => ([], [])
  | c :: r => if p c then let '(a, b) := span p r in (c :: a, b)
              else ([], s)
  end.

(** A match of [CSI_REGEX] at the start of [s], with the rest of [s]. *)
Definition csi_match (s : str) : option (CSIBlock * str) :=
  match s with
  | e :: b :: r =>
      if char_eqb e ESC && char_eqb b 91%N then
        let '(params, r1) := span is_param_byte r in
        match r1 with
        | o :: r2 =>
            if is_final_byte o then
              let '(txt, r3) := span not_esc r2 in
              Some (mkCSIBlock (e :: b :: params ++ [o]) params [o] txt, r3)
            else None
        | [] => None
        end
      else None
  | _ => None
  end.

Lemma span_length (p : char -> bool) (s : str) :
  (List.length (snd (span p s)) <= List.length s)%nat.
Proof.
  induction s as [|c r IH]; cbn [span]; [cbn; lia|].
  destruct (p c); [|cbn; lia].
  destruct (span p r) as [a b]. cbn [snd List.length] in *. lia.
Qed.

Lemma csi_match_length (s : str) (b : CSIBlock) (rest : str) :
  csi_match s = Some (b, rest) -> (List.length rest < List.length s)%nat.
Proof.
  destruct s as [|e [|b0 r]]; cbn [csi_match]; try discriminate.
  destruct (char_eqb e ESC && char_eqb b0 91%N); [|discriminate].
  pose proof (span_length is_param_byte r) as H1.
  destruct (span is_param_byte r) as [params r1].
  destruct r1 as [|o r2]; [discriminate|].
  destruct (is_final_byte o); [|discriminate].
  pose proof (span_length not_esc r2) as H2.
  destruct (span not_esc r2) as [txt r3].
  intros E. injection E as _ <-. cbn [snd List.length] in *. lia.
Qed.

Equations? csi_split (text : str) : list CSIBlock
  by wf (List.length text) lt :=
  csi_split [] := [];
  csi_split (c :: r) with inspect (csi_match (c :: r)) => {
    | exist _ (Some (b, rest)) _ := b :: csi_split rest
    | exist _ None _ := csi_split r
  }.
Proof.
  apply (csi_match_length (c :: r) b rest). assumption.
Qed.

End Csi.

(** ** richery/textwork.py *)

Module Textwork.

(** The categories [unicodedata.east_asian_width] returns. *)
Inductive eaw : Type := EA_F | EA_H | EA_W | EA_Na | EA_A | EA_N.

Record PunctuationRule : Type := mkRule {
  left_bind : str;
  right_bind : str;
  both_bind : str
}.

Definition islb (r : PunctuationRule) (c : str) : bool :=
  str_in c (left_bind r) || str_in c (both_bind r).

Definition isrb (r : PunctuationRule) (c : str) : bool :=
  str_in c (right_bind r) || str_in c (both_bind r).

Definition WesternPuncRule : PunctuationRule :=
  mkRule (lit ",.:;?!>)]}~%") (lit "<([{$#@") (lit "-_+=&^*/|\").

Definition CJKPuncRule : PunctuationRule :=
  mkRule
    [0x3002; 0xFF0C; 0x3001; 0xFF1B; 0xFF1A; 0xFF1F; 0xFF01; 0x201D; 0xFF09;
     0xFF60; 0x300B; 0x300D; 0x300F; 0x3011; 0x3015; 0x3017; 0x3019; 0x301B;
     0x301E; 0x00B7; 0x002D; 0xFF0D; 0xFF5E]%N
    [0x201C; 0xFF08; 0xFF5F; 0x300A; 0x300C; 0x300E; 0x3010; 0x3014; 0x3016;
     0x3018; 0x301A; 0x301D]%N
    [0x2014; 0x2026; 0xFF0F; 0xFF5C]%N.

Definition P_RULES : list PunctuationRule := [WesternPuncRule; CJKPuncRule].

Definition _islb (c : str) : bool := existsb (fun r => islb r c) P_RULES.

Definition _isrb (c : str) : bool := existsb (fun r => isrb r c) P_RULES.

Definition _ispunc (c : str) : bool :=
  existsb (fun r => str_in c (left_bind r ++ right_bind r ++ both_bind r))
          P_RULES.

(** [res[-1] += wd]. *)
Definition append_last (res : list str) (wd : str) : result (list str) :=
  last <- py_index res (-1) ;;
  Ok (removelast res ++ [last ++ wd]).

(** The variables [combine] carries around its loop. *)
Record binding : Type := mkBinding {
  res : list str;
  prb : bool;
  rb : bool;
  psgr : bool
}.

(** One iteration of [for wd in t[1:]]. *)
Definition combine_step (b : binding) (wd : str) : result binding :=
  c <- py_index wd 0 ;;
  if char_eqb c ESC then Ok (mkBinding (res b ++ [wd]) false false true)
  else
    b1 <- (if rb b && negb (psgr b)
           then r <- append_last (res b) wd ;;
                Ok (mkBinding r true false (psgr b))
           else Ok b) ;;
    b2 <- (if (len wd =? 1) && _ispunc wd
           then let b' := mkBinding (res b1) (prb b1) (_isrb wd) (psgr b1) in
                if _islb wd && negb (psgr b')
                then r <- append_last (res b') wd ;;
                     Ok (mkBinding r true (rb b') (psgr b'))
                else Ok b'
           else Ok b1) ;;
    let r := if negb (prb b2) then res b2 ++ [wd] else res b2 in
    Ok (mkBinding r false (rb b2) false).

Fixpoint combine_loop (b : binding) (ts : list str) : result binding :=
  match ts with
  | [] => Ok b
  | wd :: r => b' <- combine_step b wd ;; combine_loop b' r
  end.

(** [combine] on the tokens [t]. *)
Definition combine (t : list str) : result (list str) :=
  match t with
  | [] => Ok []
  | t0 :: r =>
      c <- py_index t0 0 ;;
      b <- combine_loop
             (mkBinding [t0] false ((len t0 =? 1) && _isrb t0)
                        (char_eqb c ESC))
             r ;;
      Ok (res b)
  end.

Section Unicode.

Variable east_asian_width : char -> eaw.
Variable isspace : char -> bool.

Definition iseaw (c : char) : bool :=
  match east_asian_width c with
  | EA_F | EA_W | EA_A => true
  | _ => false
  end.

Definition word_end (c : char) : bool :=
  iseaw c || isspace c || char_eqb c ESC.

Definition findword (s : str) : Z :=
  match first_index word_end s with
  | Some i => Z.of_nat i
  | None => len s
  end.

(** The [while base != length] loop of [split]; it terminates because
    [base] only moves towards [length]. *)
Equations? split_loop (t : str) (base : Z) (res : list str)
  : result (list str) by wf (Z.to_nat (len t - base)) lt :=
  split_loop t base res with Z.eq_dec base (len t) => {
    | left _ := Ok res
    | right _ with inspect (py_index t base) => {
        | exist _ (Raise e) _ := Raise e
        | exist _ (Ok c) _
            with Z.eq_dec (if char_eqb c ESC
                           then findcsiend (py_slice_from t base)
                           else findword (py_slice_from t base)) 0 => {
            | left _ := split_loop t (base + 1) (res ++ [[c]])
            | right _ :=
                let w := if char_eqb c ESC
                         then findcsiend (py_slice_from t base)
                         else findword (py_slice_from t base) in
                split_loop t (base + w) (res ++ [py_slice t base (base + w)])
          }
      }
  }.
Proof.
  all: assert (Hlt : base < len t)
    by (revert e; unfold py_index; cbv zeta;
        destruct (base <? 0) eqn:Hneg;
        [ apply Z.ltb_lt in Hneg; unfold len; lia
        | rewrite Hneg;
          destruct (nth_error t (Z.to_nat base)) eqn:Hn; [|discriminate];
          assert (Hs : nth_error t (Z.to_nat base) <> None) by congruence;
          apply nth_error_Some in Hs; apply Z.ltb_ge in Hneg;
          unfold len; lia ]).
  - lia.
  - assert (Hw : 0 <= w).
    { subst w. unfold findcsiend, findword, len.
      destruct (char_eqb c ESC);
        match goal with
        | |- context [first_index ?p ?l] => destruct (first_index p l)
        end; lia. }
    subst w. lia.
Qed.

(** [split(t)]. *)
Definition split (t : str) : result (list str) := split_loop t 0 [].

End Unicode.

End Textwork.

(** ** richery/colordef.py *)

Module Colordef.

Record RGBA : Type := mkRGBA { r : Z; g : Z; b : Z; a : Z }.

(** [RGB(r, g, b).rgba]. *)
Definition RGB (r g b : Z) : RGBA := mkRGBA r g b 255.

(** [RGBA] applied to unpacked arguments: they fill [r], [g], [b], [a] in
    that order over the defaults 0, 0, 0, 255. *)
Definition RGBA_of_args (args : list Z) : result RGBA :=
  match args with
  | [] => Ok (mkRGBA 0 0 0 255)
  | [r] => Ok (mkRGBA r 0 0 255)
  | [r; g] => Ok (mkRGBA r g 0 255)
  | [r; g; b] => Ok (mkRGBA r g b 255)
  | [r; g; b; a] => Ok (mkRGBA r g b a)
  | _ => Raise TypeError
  end.

(** [product(vs, repeat=3)] mapped through [RGB]. *)
Definition product3 (vs : list Z) : list RGBA :=
  flat_map (fun r => flat_map (fun g => map (fun b => RGB r g b) vs) vs) vs.

Definition LIGHTGRAY : RGBA := RGB 192 192 192.

Definition COLOR16_DEFAULT : list RGBA :=
  match product3 [0; 128], product3 [0; 255] with
  | [BLACK; D_BLUE; D_GREEN; D_CYAN; D_RED; D_MAGENTA; D_YELLOW; GRAY],
    [_; L_BLUE; L_GREEN; L_CYAN; L_RED; L_MAGENTA; L_YELLOW; WHITE] =>
      [BLACK; D_RED; D_GREEN; D_YELLOW; D_BLUE; D_MAGENTA; D_CYAN; LIGHTGRAY;
       GRAY; L_RED; L_GREEN; L_YELLOW; L_BLUE; L_MAGENTA; L_CYAN; WHITE]
  | _, _ => []
  end.

Definition COLOR256_DEFAULT : list RGBA :=
  COLOR16_DEFAULT
  ++ product3 [0; 0x5f; 0x87; 0xaf; 0xd7; 0xff]
  ++ map (fun k => let x := 8 + 10 * Z.of_nat k in RGB x x x) (seq 0 24).

End Colordef.

(** ** richery/canvas.py *)

Module Rect.

Record t : Type := mk { x : Z; y : Z; w : Z; h : Z }.

(** [Rect.from_ltrb(lt, rb)]. *)
Definition from_ltrb (lt rb : Z * Z) : result t :=
  let '(_x, _y) := lt in
  let '(_xw, _yh) := rb in
  if xorb (_x >? _xw) (_y >? _yh) then Raise ArithmeticError
  else Ok (mk (Z.min _x _xw) (Z.min _y _yh) (Z.abs (_xw - _x))
              (Z.abs (_yh - _y))).

(** The point accessors. *)
Definition xy (self : t) : Z * Z := (x self, y self).
Definition wh (self : t) : Z * Z := (w self, h self).
Definition size (self : t) : Z := w self * h self.
Definition lt (self : t) : Z * Z := (x self, y self).
Definition rt (self : t) : Z * Z := (x self + w self, y self).
Definition lb (self : t) : Z * Z := (x self, y self + h self).
Definition rb (self : t) : Z * Z := (x self + w self, y self + h self).
Definition ltrb (self : t) : (Z * Z) * (Z * Z) := (lt self, rb self).

(** [self.subrect(w, h)]: the margins (left, top, right, bottom). *)
Definition subrect (self : t) (w0 h0 : Z) : Z * Z * Z * Z :=
  (x self, y self, w0 - w self - x self, h0 - h self - y self).

Definition _remap (base target : t) : t :=
  let '(x0, y0, w0, h0) := (x base, y base, w base, h base) in
  let '(x1, y1) := xy target in
  mk (x1 + x0) (y1 + y0) w0 h0.

(** [self.remap] on the frames: [reduce(self._remap, (self, ...))]. *)
Definition remap (self : t) (rect : list t) : t :=
  fold_left _remap rect self.

(** [point in self]. *)
Definition __contains__ (self : t) (point : Z * Z) : bool :=
  let '(_x, _y) := point in
  ((x self <=? _x) && (_x <=? x self + w self))
  && ((y self <=? _y) && (_y <=? y self + h self)).

Definition _cross (self r : t) : t :=
  let _x := Z.max (x self) (x r) in
  let _y := Z.max (y self) (y r) in
  let _w := Z.max 0 (w self + w r
                     - Z.max (x self + w self) (x r + w r)
                     + Z.min (x self) (x r)) in
  let _h := Z.max 0 (h self + h r
                     - Z.max (y self + h self) (y r + h r)
                     + Z.min (y self) (y r)) in
  mk _x _y _w _h.

Definition __mul__ (self r : t) : t := _cross self r.

End Rect.

(** A font object; two handles are the same font when they are equal. *)
Abbreviation GenericFont := N (only parsing).

Module FontFamily.

Record t : Type := mk {
  Regular : GenericFont;
  Thin : option GenericFont;
  ExtraLight : option GenericFont;
  Light : option GenericFont;
  Medium : option GenericFont;
  SemiBold : option GenericFont;
  Bold : option GenericFont;
  ExtraBold : option GenericFont;
  Black : option GenericFont
}.

Definition _tuple (self : t) : list (option GenericFont) :=
  [Thin self; ExtraLight self; Light self; Some (Regular self);
   Medium self; SemiBold self; Bold self; ExtraBold self; Black self].

(** [x or self.Regular]. *)
Definition or_regular (self : t) (x : option GenericFont) : GenericFont :=
  match x with
  | Some f => f
  | None => Regular self
  end.

Definition _select (self : t) (_i : Z) : result GenericFont :=
  x <- py_index (Some (Regular self) :: _tuple self) _i ;;
  Ok (or_regular self x).

(** [tuple(x for x in self._tuple() if x is not None)]. *)
Definition configured (self : t) : list GenericFont :=
  flat_map (fun x => match x with Some f => [f] | None => [] end)
           (_tuple self).

Definition find_relative_font (self : t) (delta : Z)
  (font : option GenericFont) : result GenericFont :=
  let ext := configured self in
  let _font := match font with None => Regular self | Some f => f end in
  i <- py_find N.eqb _font ext ;;
  let found := i + delta in
  py_index ext (Z.max 0 (Z.min (len ext) found)).

Definition __getitem__ (self : t) (_i : Z) : result GenericFont :=
  if (0 <=? _i) && (_i <? 10) then _select self _i
  else if (100 <=? _i) && (_i <=? 900) then _select self (round_div100 _i)
  else Raise IndexError.

Definition __add__ (self : t) (other : Z) : result GenericFont :=
  find_relative_font self other None.

End FontFamily.

Module TextDrawState.

Record t : Type := mk {
  land : Rect.t;
  avoid : list Rect.t;
  fonts : list (FontFamily.t * option FontFamily.t);
  lineheight : Z;
  curpos : Q * Q;
  spacing : Z;
  sgr : SGRState.t;
  palette : list Colordef.RGBA
}.

Definition with_curpos (s : t) (p : Q * Q) : t :=
  mk (land s) (avoid s) (fonts s) (lineheight s) p (spacing s) (sgr s)
     (palette s).

Definition with_sgr (s : t) (v : SGRState.t) : t :=
  mk (land s) (avoid s) (fonts s) (lineheight s) (curpos s) (spacing s) v
     (palette s).

Definition current_font (self : t) : result GenericFont :=
  pair <- py_index (fonts self) (SGRState.font (sgr self)) ;;
  let chosen := if SGRState.italic (sgr self) then snd pair
                else Some (fst pair) in
  let family := match chosen with Some f => f | None => fst pair end in
  FontFamily.__add__ family (SGRState.power (sgr self)).

Definition current_color (self : t) : result Colordef.RGBA :=
  match SGRState.fg_rgb (sgr self) with
  | Some rgb => Colordef.RGBA_of_args rgb
  | None => py_index (palette self) (SGRState.fg (sgr self))
  end.

End TextDrawState.

Module RichCanvas.

(** One call of the external [draw.text]; the anchor is always "la". *)
Record paint : Type := mkPaint {
  xy : Q * Q;
  text_of : str;
  fill : Colordef.RGBA;
  font_of : GenericFont
}.

(** [s.split(";")] and friends: the pieces between separators. *)
Fixpoint split_on (sep : char) (s : str) : list str :=
  match s with
  | [] => [[]]
  | c :: r =>
      if char_eqb c sep then [] :: split_on sep r
      else match split_on sep r with
           | p :: ps => (c :: p) :: ps
           | [] => [[c]]
           end
  end.

Fixpoint mapM {A B : Type} (f : A -> result B) (l : list A)
  : result (list B) :=
  match l with
  | [] => Ok []
  | a :: r => b <- f a ;; bs <- mapM f r ;; Ok (b :: bs)
  end.

(** [deque.pop()], [n] times. *)
Fixpoint pop_n {A : Type} (n : nat) (q : list A) : result (list A) :=
  match n with
  | O => Ok q
  | S m => match q with
           | [] => Raise IndexError
           | _ :: _ => pop_n m (removelast q)
           end
  end.

Section Provider.

(** [unicodedata.east_asian_width], [str.isspace], [int] on a string, and
    the last two components of [draw.textbbox((0, 0), wd, font, "la")]. *)
Variable east_asian_width : char -> Textwork.eaw.
Variable isspace : char -> bool.
Variable py_int : str -> result Z.
Variable textbbox : GenericFont -> str -> Z * Z.
Variable splitlines : str -> list str.

Fixpoint lstrip (s : str) : str :=
  match s with
  | [] => []
  | c :: r => if isspace c then lstrip r else s
  end.

(** [wd.strip()]. *)
Definition strip (s : str) : str := rev (lstrip (rev (lstrip s))).

(** The painter's state: the draw state and what went to the paint sink. *)
Definition painter : Type := TextDrawState.t * list paint.

(** One iteration of [for wd, wi in textq] in [_draw_text]. *)
Definition draw_item (breadcrumb n : Z) (p : painter) (item : str * Z)
  : result painter :=
  let '(state, out) := p in
  let '(wd, wi) := item in
  c <- py_index wd 0 ;;
  if char_eqb c ESC then
    params <- mapM py_int (split_on 59%N (py_slice wd 2 (-1))) ;;
    Ok (TextDrawState.with_sgr state
          (SGRState.set_state (TextDrawState.sgr state) params), out)
  else if wi =? 0 then Raise RuntimeError
  else
    let '(cx, cy) := TextDrawState.curpos state in
    color <- TextDrawState.current_color state ;;
    font <- TextDrawState.current_font state ;;
    let land := TextDrawState.land state in
    let cmd := mkPaint (cx + inject_Z (Rect.x land), cy + inject_Z (Rect.y land))%Q
                       wd color font in
    Ok (TextDrawState.with_curpos state
          (cx + inject_Z wi + inject_Z breadcrumb / inject_Z n, cy)%Q,
        out ++ [cmd]).

Fixpoint draw_items (breadcrumb n : Z) (p : painter) (textq : list (str * Z))
  : result painter :=
  match textq with
  | [] => Ok p
  | item :: r => p' <- draw_item breadcrumb n p item ;;
                 draw_items breadcrumb n p' r
  end.

(** [_draw_text]; the queue is cleared by the caller of the model. *)
Definition _draw_text (p : painter) (textq : list (str * Z))
  (breadcrumb nstyle : Z) : result painter :=
  let n := Z.max 1 (len textq - 1 - nstyle) in
  draw_items breadcrumb n p textq.

(** The variables of the loop of [_text]. *)
Record line : Type := mkLine {
  rq : list (str * Z);
  rw : Z;
  rh : Z;
  ws : Z;
  wsw : Z;
  lwr : bool;
  sty : Z;
  pen : painter
}.

(** One iteration of [for wd in sp]. *)
Definition text_step (justify : bool) (l : line) (wd : str) : result line :=
  c <- py_index wd 0 ;;
  if char_eqb c ESC then
    Ok (mkLine (rq l ++ [(wd, 0)]) (rw l) (rh l) (ws l) (wsw l) (lwr l)
               (sty l + 1) (pen l))
  else
    let st := fst (pen l) in
    font <- TextDrawState.current_font st ;;
    let '(w, h) := textbbox font wd in
    let rh1 := Z.max (Z.max h (rh l)) (TextDrawState.lineheight st) in
    let land_w := Rect.w (TextDrawState.land st) in
    l1 <- (if rw l + w >? land_w then
             let crb := if justify then land_w - rw l + wsw l else 0 in
             q <- pop_n (Z.to_nat (ws l)) (rq l) ;;
             '(st', out) <- _draw_text (pen l) q crb (sty l) ;;
             let '(_, cy) := TextDrawState.curpos st' in
             let st'' := TextDrawState.with_curpos st'
                           (0, cy + inject_Z rh1
                               + inject_Z (TextDrawState.spacing st'))%Q in
             Ok (mkLine [] 0 0 (ws l) (wsw l) (lwr l) 0 (st'', out))
           else Ok (mkLine (rq l) (rw l) rh1 (ws l) (wsw l) (lwr l) (sty l)
                           (pen l))) ;;
    if negb (truthy (rq l1)) && negb (truthy (strip wd))
       && negb (lwr l1)
    then Ok l1
    else
      let rw2 := rw l1 + w in
      let rq2 := rq l1 ++ [(wd, w)] in
      if truthy (strip wd)
      then Ok (mkLine rq2 rw2 (rh l1) 0 0 false (sty l1) (pen l1))
      else Ok (mkLine rq2 rw2 (rh l1) (ws l1 + 1) (wsw l1 + w) (lwr l1)
                      (sty l1) (pen l1)).

Fixpoint text_loop (justify : bool) (l : line) (sp : list str)
  : result line :=
  match sp with
  | [] => Ok l
  | wd :: r => l' <- text_step justify l wd ;; text_loop justify l' r
  end.

(** The loop variables before the first token. *)
Definition fresh (p : painter) : line := mkLine [] 0 0 0 0 true 0 p.

(** What follows the loop of [_text]: the last flush and the line feed. *)
Definition finish (l : line) : result painter :=
  '(st, out) <- _draw_text (pen l) (rq l) 0 0 ;;
  let '(_, cy) := TextDrawState.curpos st in
  Ok (TextDrawState.with_curpos st
        (0, cy + inject_Z (Z.max (rh l) (TextDrawState.lineheight st))
            + inject_Z (TextDrawState.spacing st))%Q,
      out).

Definition _text (p : painter) (text : str) (justify : bool)
  : result painter :=
  toks <- Textwork.split east_asian_width isspace text ;;
  sp <- Textwork.combine toks ;;
  l <- text_loop justify (fresh p) sp ;;
  finish l.

Fixpoint text_lines (p : painter) (lns : list str) (justify : bool)
  : result painter :=
  match lns with
  | [] => Ok p
  | ln :: r => p' <- _text p ln justify ;; text_lines p' r justify
  end.

Definition text (p : painter) (text : str) (justify : bool)
  : result painter :=
  text_lines p (splitlines text) justify.

End Provider.

End RichCanvas.

(** ** Notions used by the statements *)

(** A family where only the Regular and the Bold variants are set. *)
Definition regular_bold (r b : GenericFont) : FontFamily.t :=
  FontFamily.mk r None None None None None (Some b) None None.

(** What the reset opcode leaves of a style state: everything at its
    default, the foreground at the default index of the state. *)
Definition reset_of (s : SGRState.t) : SGRState.t :=
  SGRState.mk 0 false 0 0 false 0 (SGRState.fg_default s)
              (SGRState.fg_default s) None false.

(** The locals of [set_state] after the opcodes [ops] of one call. *)
Definition pending (ops : list Z) : SGRState.locals :=
  snd (SGRState.run (SGRState.default, SGRState.entry) ops).

(** Consecutive calls of [set_state], one per chunk of opcodes. *)
Definition set_state_calls (s : SGRState.t) (chunks : list (list Z))
  : SGRState.t :=
  fold_left SGRState.set_state chunks s.

(** A binding state whose accumulated entries are preceded by [pre]. *)
Definition prepend (pre : list str) (b : Textwork.binding)
  : Textwork.binding :=
  Textwork.mkBinding (pre ++ Textwork.res b) (Textwork.prb b)
                     (Textwork.rb b) (Textwork.psgr b).

(** The token [wd] meets both binding branches of one iteration of
    [combine]: the previous token left a right-bind pending, and [wd] is a
    single left-binding mark. *)
Definition bound_twice (b : Textwork.binding) (wd : str) : bool :=
  Textwork.rb b && negb (Textwork.psgr b)
  && ((len wd =? 1) && Textwork._ispunc wd && Textwork._islb wd).

(** The tokens of [ts] that meet both branches when the loop of [combine]
    runs over [ts] from [b]. *)
Fixpoint twice_bound (b : Textwork.binding) (ts : list str) : list str :=
  match ts with
  | [] => []
  | wd :: r =>
      (if bound_twice b wd then [wd] else [])
      ++ match Textwork.combine_step b wd with
         | Ok b' => twice_bound b' r
         | Raise _ => []
         end
  end.

(** The style tokens that turn bold and underline on, and the em dash. *)
Definition sgr_bold : str := ESC :: lit "[1m".
Definition sgr_underline : str := ESC :: lit "[4m".
Definition em_dash : char := 0x2014%N.

(** A provider for the concrete layouts below.  On the characters they
    use it agrees with the interpreter: the blanks of ASCII are the
    whitespace, printable ASCII is narrow and the em dash is ambiguous;
    a parameter is a run of decimal digits; a blank is 5 units wide, any
    other character 10, and a run is 10 units high. *)
Definition sample_isspace (c : char) : bool :=
  ((9 <=? c) && (c <=? 13) || (28 <=? c) && (c <=? 32))%N.

Definition sample_eaw (c : char) : Textwork.eaw :=
  if (c =? em_dash)%N then Textwork.EA_A
  else if ((32 <=? c) && (c <? 127))%N then Textwork.EA_Na
  else Textwork.EA_N.

Fixpoint sample_digits (s : str) (acc : Z) : result Z :=
  match s with
  | [] => Ok acc
  | c :: r => if ((48 <=? c) && (c <=? 57))%N
              then sample_digits r (10 * acc + Z.of_N (c - 48))
              else Raise ValueError
  end.

Definition sample_int (s : str) : result Z :=
  match s with
  | [] => Raise ValueError
  | _ :: _ => sample_digits s 0
  end.

Definition sample_textbbox (f : GenericFont) (wd : str) : Z * Z :=
  (fold_right (fun c acc => (if sample_isspace c then 5 else 10) + acc) 0 wd,
   10).

(** A draw state as the example driver builds it: one family with its
    Regular variant only, line height 26, over a region [w] units wide. *)
Definition sample_state (w : Z) : TextDrawState.t :=
  TextDrawState.mk (Rect.mk 0 0 w 100) []
    [(FontFamily.mk 1%N None None None None None None None None, None)]
    26 (0, 0)%Q 4 SGRState.default Colordef.COLOR256_DEFAULT.

Definition sample_text (w : Z) (text : str) (justify : bool)
  : result RichCanvas.painter :=
  RichCanvas._text sample_eaw sample_isspace sample_int sample_textbbox
                   (sample_state w, []) text justify.

(** What a paint call shows of a token: where it goes, and the token. *)
Definition shown (p : RichCanvas.paint) : Q * Q * str :=
  (Qred (fst (RichCanvas.xy p)), Qred (snd (RichCanvas.xy p)),
   RichCanvas.text_of p).

(** The measured widths of a queue, and the distance the cursor covers
    over it when every token gets [breadcrumb / n] on top of its width. *)
Definition widths (q : list (str * Z)) : Z :=
  fold_right (fun it acc => snd it + acc) 0 q.

Definition advance (breadcrumb n : Z) (q : list (str * Z)) : Q :=
  fold_right
    (fun it acc =>
       (inject_Z (snd it) + inject_Z breadcrumb / inject_Z n + acc)%Q)
    0%Q q.

(** A token that is not a style token. *)
Definition text_token (wd : str) : Prop :=
  exists c, py_index wd 0 = Ok c /\ char_eqb c ESC = false.

Section Reachability.

Variable isspace : char -> bool.
Variable py_int : str -> result Z.
Variable textbbox : GenericFont -> str -> Z * Z.

(** The loop variables [_text] can reach on a token stream without style
    tokens. *)
Inductive plain_reachable (justify : bool) (p0 : RichCanvas.painter)
  : RichCanvas.line -> Prop :=
| reach_fresh : plain_reachable justify p0 (RichCanvas.fresh p0)
| reach_step (l l' : RichCanvas.line) (wd : str) :
    plain_reachable justify p0 l ->
    text_token wd ->
    RichCanvas.text_step isspace py_int textbbox justify l wd = Ok l' ->
    plain_reachable justify p0 l'.

End Reachability.

(** What the loop of [_text] maintains on such a stream: the line width is
    the sum of the queued widths, and the whitespace counters either
    describe the tail of the queue or are left over from a flushed line
    and exceed what is queued. *)
Definition queue_ok (l : RichCanvas.line) : Prop :=
  RichCanvas.rw l = widths (RichCanvas.rq l)
  /\ 0 <= RichCanvas.ws l
  /\ RichCanvas.sty l = 0
  /\ Forall (fun it => text_token (fst it)) (RichCanvas.rq l)
  /\ ((exists pre tail,
         RichCanvas.rq l = pre ++ tail
         /\ len tail = RichCanvas.ws l
         /\ widths tail = RichCanvas.wsw l)
      \/ len (RichCanvas.rq l) <= RichCanvas.ws l).

(** The loop variables after "aa", " ", "bb", " " on a region 50 units
    wide, and the queue a forced break then flushes. *)
Definition sample_line : RichCanvas.line :=
  RichCanvas.mkLine
    [(lit "aa", 20); (lit " ", 5); (lit "bb", 20); (lit " ", 5)]
    50 26 1 5 false 0 (sample_state 50, []).

Definition sample_flushed : list (str * Z) :=
  [(lit "aa", 20); (lit " ", 5); (lit "bb", 20)].

(** The call is not inside an extended-colour unit. *)
Definition idle (l : SGRState.locals) : Prop :=
  SGRState.op38 l = false /\ SGRState.op38_256 l = false
  /\ SGRState.op38_24 l = 0.

(** The opcodes the chain of [set_state] has a branch for. *)
Definition recognised (op : Z) : bool :=
  (op =? 0) || (op =? 1) || (op =? 2) || (op =? 3) || (op =? 4) || (op =? 9)
  || ((10 <=? op) && (op <=? 19)) || (op =? 23) || (op =? 24) || (op =? 29)
  || ((30 <=? op) && (op <=? 37)) || (op =? 38) || (op =? 39) || (op =? 53)
  || (op =? 55) || (op =? 64) || (op =? 65) || ((90 <=? op) && (op <=? 97)).

(** A style token: its first character is the escape character. *)
Definition is_style (wd : str) : bool :=
  match wd with
  | c :: _ => char_eqb c ESC
  | [] => false
  end.


(** The three kinds of token [split] makes: a style token, one wide or
    whitespace character, or a word, in which no character is wide,
    whitespace or the escape character. *)
Definition split_token (east_asian_width : char -> Textwork.eaw)
  (isspace : char -> bool) (tok : str) : Prop :=
  is_style tok = true
  \/ (exists c, tok = [c]
                /\ Textwork.iseaw east_asian_width c || isspace c = true
                /\ char_eqb c ESC = false)
  \/ (tok <> []
      /\ Forall (fun c => Textwork.word_end east_asian_width isspace c
                          = false) tok).

(** What the loop keeps for the last entry: it is not empty, and unless the
    previous token was a style token it is no style token. *)
Definition last_plain (b : Textwork.binding) : Prop :=
  exists l x,
    Textwork.res b = l ++ [x] /\ x <> [] /\ Textwork.prb b = false
    /\ (Textwork.psgr b = false -> is_style x = false).

(** What a layout call may change of the painter: the cursor and the
    style state of the draw state, and the paint log, by appending. *)
Definition extends (p p' : RichCanvas.painter) : Prop :=
  TextDrawState.land (fst p') = TextDrawState.land (fst p)
  /\ TextDrawState.avoid (fst p') = TextDrawState.avoid (fst p)
  /\ TextDrawState.fonts (fst p') = TextDrawState.fonts (fst p)
  /\ TextDrawState.lineheight (fst p') = TextDrawState.lineheight (fst p)
  /\ TextDrawState.spacing (fst p') = TextDrawState.spacing (fst p)
  /\ TextDrawState.palette (fst p') = TextDrawState.palette (fst p)
  /\ SGRState.fg_default (TextDrawState.sgr (fst p'))
     = SGRState.fg_default (TextDrawState.sgr (fst p))
  /\ exists ps, snd p' = snd p ++ ps.

(** The painter a sample layout ends with. *)
Definition sample_result (w : Z) (text : str) : RichCanvas.painter :=
  match sample_text w text true with
  | Ok p => p
  | Raise _ => (sample_state w, [])
  end.

(** A block as [CSI_REGEX] can match it, and the text it stands for. *)
Definition csi_valid (b : Csi.CSIBlock) : Prop :=
  Csi.cc b = ESC :: 91%N :: Csi.par b ++ Csi.op b
  /\ Forall (fun c => Csi.is_param_byte c = true) (Csi.par b)
  /\ (exists o, Csi.op b = [o] /\ is_final_byte o = true)
  /\ Forall (fun c => Csi.not_esc c = true) (Csi.t b).

Definition csi_render (b : Csi.CSIBlock) : str := Csi.cc b ++ Csi.t b.

(** The longest run stops where the predicate fails, or at the end. *)
Definition stops (p : char -> bool) (rest : str) : Prop :=
  match rest with
  | [] => True
  | c :: _ => p c = false
  end.

(** * Properties *)

(** ** Rectangles *)

(** C3, as the claim states it, at its own inputs: the corners (10,0) and
    (0,20) do not give the rectangle of (0,0) and (10,20), and the corners
    (10,0) and (0,-5) are not refused. *)
Lemma from_ltrb_claimed_examples_fail :
  ~ (Rect.from_ltrb (10, 0) (0, 20) = Rect.from_ltrb (0, 0) (10, 20)
     /\ exists e, Rect.from_ltrb (10, 0) (0, -5) = Raise e).
Proof.
  intros [H _]. vm_compute in H. discriminate H.
Qed.

(** C3, amended: the corners (0,0) and (10,20) give width 10 and height 20;
    the corners (10,0) and (0,20) are refused with the construction error,
    because x descends while y does not; the corners (10,0) and (0,-5) are
    accepted, both axes descending, and give the rectangle at (0,-5) of
    width 10 and height 5.  In general the construction fails exactly when
    one axis strictly descends and the other does not, and otherwise yields
    the normalised rectangle, whose width and height are not negative. *)
Theorem from_ltrb_spec :
  Rect.from_ltrb (0, 0) (10, 20) = Ok (Rect.mk 0 0 10 20)
  /\ Rect.from_ltrb (10, 0) (0, 20) = Raise ArithmeticError
  /\ Rect.from_ltrb (10, 0) (0, -5) = Ok (Rect.mk 0 (-5) 10 5)
  /\ forall x0 y0 x1 y1 : Z,
       ((x0 > x1 <-> y0 > y1) ->
        exists r, Rect.from_ltrb (x0, y0) (x1, y1) = Ok r
                  /\ Rect.x r = Z.min x0 x1 /\ Rect.y r = Z.min y0 y1
                  /\ Rect.w r = Z.abs (x1 - x0) /\ Rect.h r = Z.abs (y1 - y0)
                  /\ 0 <= Rect.w r /\ 0 <= Rect.h r)
       /\ (~ (x0 > x1 <-> y0 > y1) ->
           Rect.from_ltrb (x0, y0) (x1, y1) = Raise ArithmeticError).
Proof.
  repeat split; try reflexivity.
  - intros Hagree. unfold Rect.from_ltrb.
    destruct (Z.gtb_spec x0 x1) as [Hx | Hx];
      destruct (Z.gtb_spec y0 y1) as [Hy | Hy]; cbn [xorb];
      try (exfalso; lia).
    + eexists; repeat split; cbn; try reflexivity; lia.
    + eexists; repeat split; cbn; try reflexivity; lia.
  - intros Hdis. unfold Rect.from_ltrb.
    destruct (Z.gtb_spec x0 x1) as [Hx | Hx];
      destruct (Z.gtb_spec y0 y1) as [Hy | Hy]; cbn [xorb];
      try reflexivity; exfalso; apply Hdis; lia.
Qed.

Lemma from_ltrb_spec_witness :
  exists r, Rect.from_ltrb (10, 0) (0, -5) = Ok r
            /\ Rect.x r = Z.min 10 0 /\ Rect.y r = Z.min 0 (-5)
            /\ Rect.w r = Z.abs (0 - 10) /\ Rect.h r = Z.abs (-5 - 0)
            /\ 0 <= Rect.w r /\ 0 <= Rect.h r.
Proof.
  apply (proj1 (proj2 (proj2 (proj2 from_ltrb_spec)) 10 0 0 (-5))).
  split; intros _; reflexivity.
Defined.

(** ** Indexing *)

Lemma len_nonneg {A : Type} (l : list A) : 0 <= len l.
Proof. unfold len. lia. Qed.

(** The length of a sequence is not one of its indices. *)
Lemma py_index_len {A : Type} (l : list A) :
  py_index l (len l) = Raise IndexError.
Proof.
  unfold py_index. pose proof (len_nonneg l) as Hl.
  destruct (Z.ltb_spec (len l) 0) as [H | H]; [lia|].
  destruct (Z.ltb_spec (len l) 0) as [H' | H']; [lia|].
  unfold len. rewrite Nat2Z.id.
  destruct (nth_error l (List.length l)) eqn:Hn; [|reflexivity].
  assert (Hs : nth_error l (List.length l) <> None) by congruence.
  apply nth_error_Some in Hs. lia.
Qed.

(** ** Slices *)

Lemma py_index_nth {A : Type} (l : list A) (i : Z) (a : A) :
  0 <= i -> py_index l i = Ok a ->
  nth_error l (Z.to_nat i) = Some a /\ i < len l.
Proof.
  intros Hi. unfold py_index.
  destruct (Z.ltb_spec i 0) as [H | H]; [lia|].
  destruct (Z.ltb_spec i 0) as [H' | H']; [lia|].
  destruct (nth_error l (Z.to_nat i)) eqn:Hn; [|discriminate].
  intros E. injection E as ->. split; [reflexivity|].
  assert (Hs : nth_error l (Z.to_nat i) <> None) by congruence.
  apply nth_error_Some in Hs. unfold len. lia.
Qed.

Lemma py_index_in_range {A : Type} (l : list A) (i : Z) :
  0 <= i < len l -> exists a, py_index l i = Ok a.
Proof.
  intros Hi. unfold py_index.
  destruct (Z.ltb_spec i 0) as [H | H]; [lia|].
  destruct (Z.ltb_spec i 0) as [H' | H']; [lia|].
  destruct (nth_error l (Z.to_nat i)) eqn:Hn; [eauto|].
  apply nth_error_None in Hn. unfold len in Hi. lia.
Qed.

Lemma first_index_lt {A : Type} (p : A -> bool) (l : list A) (i : nat) :
  first_index p l = Some i -> (i < List.length l)%nat.
Proof.
  revert i. induction l as [|a r IH]; intros i; cbn; [discriminate|].
  destruct (p a).
  - intros E. injection E as <-. lia.
  - destruct (first_index p r) as [j|]; [|discriminate].
    intros E. injection E as <-. specialize (IH j eq_refl). lia.
Qed.

Lemma py_slice_from_skipn {A : Type} (l : list A) (a : Z) :
  0 <= a <= len l -> py_slice_from l a = skipn (Z.to_nat a) l.
Proof.
  intros Ha. unfold py_slice_from, clamp_index.
  destruct (Z.ltb_spec a 0) as [H | H]; [lia|].
  rewrite Z.min_l by lia. reflexivity.
Qed.

Lemma py_slice_firstn {A : Type} (l : list A) (a b : Z) :
  0 <= a -> a <= b <= len l ->
  py_slice l a b = firstn (Z.to_nat (b - a)) (skipn (Z.to_nat a) l).
Proof.
  intros Ha Hb. unfold py_slice, clamp_index.
  destruct (Z.ltb_spec a 0) as [H | H]; [lia|].
  destruct (Z.ltb_spec b 0) as [H' | H']; [lia|].
  rewrite !Z.min_l by lia. reflexivity.
Qed.

Lemma firstn_plus {A : Type} (a w : nat) (l : list A) :
  firstn (a + w) l = firstn a l ++ firstn w (skipn a l).
Proof.
  revert l. induction a as [|a IH]; intros l; [reflexivity|].
  destruct l as [|x r]; cbn.
  - destruct w; reflexivity.
  - rewrite IH. reflexivity.
Qed.

Lemma firstn_succ_nth {A : Type} (a : nat) (l : list A) (c : A) :
  nth_error l a = Some c -> firstn (S a) l = firstn a l ++ [c].
Proof.
  revert l. induction a as [|a IH]; intros [|x r]; cbn; try discriminate.
  - intros E. injection E as ->. reflexivity.
  - intros E. rewrite <- (IH r E). reflexivity.
Qed.

(** ** Font families *)

(** C2, as the claim states it, on the family with Regular 1 and Bold 2:
    weight 900 does not resolve to the Bold variant. *)
Lemma getitem_900_not_bold :
  ~ (FontFamily.__getitem__ (regular_bold 1%N 2%N) 450 = Ok 1%N
     /\ FontFamily.__getitem__ (regular_bold 1%N 2%N) 900 = Ok 2%N).
Proof.
  intros [_ H]. vm_compute in H. discriminate H.
Qed.

Lemma round_div100_range (i : Z) :
  100 <= i <= 900 -> 1 <= round_div100 i <= 9.
Proof.
  intros Hi. unfold round_div100.
  assert (Hq : 1 <= i / 100 <= 9).
  { split.
    - apply Z.div_le_lower_bound; lia.
    - apply Z.div_le_upper_bound; lia. }
  pose proof (Z.mod_pos_bound i 100 ltac:(lia)) as Hr.
  pose proof (Z.div_mod i 100 ltac:(lia)) as Hdm.
  destruct (i mod 100 <? 50) eqn:H1; [lia|].
  apply Z.ltb_ge in H1.
  destruct (50 <? i mod 100) eqn:H2.
  - apply Z.ltb_lt in H2. lia.
  - apply Z.ltb_ge in H2. destruct (Z.even (i / 100)); lia.
Qed.

(** C2, amended: with only Regular and Bold set, weight 450 resolves to the
    Regular variant and weight 900 resolves to the Regular variant too (the
    Black slot is unset and falls back to the base variant).  A weight in
    100..900 selects the slot [round(weight / 100)]: Bold when that slot is 7,
    the Regular fallback for every other slot; the lookup does not look for a
    nearest set slot. *)
Theorem getitem_regular_bold (r b : GenericFont) (i : Z) :
  100 <= i <= 900 ->
  FontFamily.__getitem__ (regular_bold r b) 450 = Ok r
  /\ FontFamily.__getitem__ (regular_bold r b) 900 = Ok r
  /\ FontFamily.__getitem__ (regular_bold r b) i
     = Ok (if round_div100 i =? 7 then b else r).
Proof.
  intros Hi. split; [reflexivity|]. split; [reflexivity|].
  unfold FontFamily.__getitem__.
  replace ((0 <=? i) && (i <? 10)) with false by lia.
  replace ((100 <=? i) && (i <=? 900)) with true by lia.
  pose proof (round_div100_range i Hi) as Hr.
  assert (Hcases : round_div100 i = 1 \/ round_div100 i = 2
                   \/ round_div100 i = 3 \/ round_div100 i = 4
                   \/ round_div100 i = 5 \/ round_div100 i = 6
                   \/ round_div100 i = 7 \/ round_div100 i = 8
                   \/ round_div100 i = 9) by lia.
  destruct Hcases as [E|[E|[E|[E|[E|[E|[E|[E|E]]]]]]]];
    rewrite E; reflexivity.
Qed.

Lemma getitem_regular_bold_witness :
  FontFamily.__getitem__ (regular_bold 1%N 2%N) 450 = Ok 1%N
  /\ FontFamily.__getitem__ (regular_bold 1%N 2%N) 900 = Ok 1%N
  /\ FontFamily.__getitem__ (regular_bold 1%N 2%N) 700
     = Ok (if round_div100 700 =? 7 then 2%N else 1%N).
Proof.
  apply (getitem_regular_bold 1%N 2%N 700). lia.
Defined.

(** C5, at the failing input and around it: when the walk from the starting
    variant reaches or passes the number of configured variants, the lookup
    raises [IndexError] instead of clamping at the heaviest one; the upper
    bound of the clamp is the length of the tuple, one past its last
    index. *)
Theorem find_relative_font_overshoot
  (self : FontFamily.t) (delta : Z) (font : option GenericFont) (i : Z) :
  py_find N.eqb (match font with
                 | None => FontFamily.Regular self
                 | Some f => f
                 end) (FontFamily.configured self) = Ok i ->
  len (FontFamily.configured self) <= i + delta ->
  FontFamily.find_relative_font self delta font = Raise IndexError.
Proof.
  intros Hfind Hover. unfold FontFamily.find_relative_font.
  cbv zeta.
  match goal with
  | |- bind ?c _ = _ => replace c with (@Ok Z i) by (symmetry; exact Hfind)
  end.
  cbn [bind].
  replace (Z.max 0 (Z.min (len (FontFamily.configured self)) (i + delta)))
    with (len (FontFamily.configured self))
    by (pose proof (len_nonneg (FontFamily.configured self)); lia).
  apply py_index_len.
Qed.

Lemma find_relative_font_overshoot_witness :
  FontFamily.find_relative_font
    (FontFamily.mk 1%N None None None None None None None None) 1 None
  = Raise IndexError.
Proof.
  apply (find_relative_font_overshoot
           (FontFamily.mk 1%N None None None None None None None None)
           1 None 0).
  - reflexivity.
  - vm_compute. discriminate.
Defined.

Lemma py_find_range {A : Type} (eqb : A -> A -> bool) (a : A) (l : list A)
  (i : Z) :
  py_find eqb a l = Ok i -> 0 <= i < len l.
Proof.
  revert i. induction l as [|b r IH]; intros i; cbn [py_find];
    [discriminate|].
  unfold len in *. cbn [List.length].
  destruct (eqb b a).
  - intros E. injection E as <-. lia.
  - destruct (py_find eqb a r) as [j|e]; cbn [bind]; [|discriminate].
    intros E. injection E as <-. specialize (IH j eq_refl). lia.
Qed.

(** X14: short of the overshoot the lookup does return a configured
    variant: the one as many places away from the start, in ascending weight
    order, as the steps say, and the lightest one when the walk would pass
    below it. *)
Lemma find_relative_font_in_range
  (self : FontFamily.t) (delta : Z) (font : option GenericFont) (i : Z) :
  py_find N.eqb (match font with
                 | None => FontFamily.Regular self
                 | Some f => f
                 end) (FontFamily.configured self) = Ok i ->
  i + delta < len (FontFamily.configured self) ->
  exists f,
    FontFamily.find_relative_font self delta font = Ok f
    /\ nth_error (FontFamily.configured self) (Z.to_nat (Z.max 0 (i + delta)))
       = Some f.
Proof.
  intros Hfind Hin. pose proof (py_find_range _ _ _ _ Hfind) as Hi.
  unfold FontFamily.find_relative_font.
  cbv zeta.
  match goal with
  | |- context [bind ?c _] =>
      replace c with (@Ok Z i) by (symmetry; exact Hfind)
  end.
  cbn [bind].
  rewrite Z.min_r by lia.
  match goal with
  | |- exists f, py_index ?l ?k = Ok f /\ _ =>
      destruct (py_index_in_range l k ltac:(lia)) as [f Hf]
  end.
  exists f. split; [exact Hf|].
  apply py_index_nth in Hf; [apply Hf | lia].
Qed.

(** ** The style state machine *)

Lemma run_app (sl : SGRState.t * SGRState.locals) (a b : list Z) :
  SGRState.run sl (a ++ b) = SGRState.run (SGRState.run sl a) b.
Proof. unfold SGRState.run. apply fold_left_app. Qed.

Ltac split_ifs :=
  repeat match goal with
         | |- context [if ?c then _ else _] => destruct c
         end.

(** The locals evolve on their own: the style state never feeds back. *)
Lemma dispatch_locals (s s' : SGRState.t) (l : SGRState.locals) (op : Z) :
  snd (SGRState.dispatch s l op) = snd (SGRState.dispatch s' l op).
Proof. unfold SGRState.dispatch. split_ifs; reflexivity. Qed.

Lemma step_locals (s s' : SGRState.t) (l : SGRState.locals) (op : Z) :
  snd (SGRState.step (s, l) op) = snd (SGRState.step (s', l) op).
Proof.
  unfold SGRState.step.
  destruct (SGRState.op38_256 l); [reflexivity|].
  destruct (negb (SGRState.op38_24 l =? 0)).
  - cbv zeta. destruct (SGRState.op38_24 l - 1 =? 0); reflexivity.
  - destruct (SGRState.op38 l).
    + destruct (op =? 5); [reflexivity|].
      destruct (op =? 2); [reflexivity|]. apply dispatch_locals.
    + apply dispatch_locals.
Qed.

Lemma run_locals (ops : list Z) :
  forall (s s' : SGRState.t) (l : SGRState.locals),
    snd (SGRState.run (s, l) ops) = snd (SGRState.run (s', l) ops).
Proof.
  induction ops as [|op ops IH]; intros s s' l; [reflexivity|].
  cbn [SGRState.run fold_left].
  pose proof (step_locals s s' l op) as Hs.
  destruct (SGRState.step (s, l) op) as [s1 l1].
  destruct (SGRState.step (s', l) op) as [s2 l2].
  cbn in Hs. subst l2. apply (IH s1 s2 l1).
Qed.

Lemma run_pending (s : SGRState.t) (ops : list Z) :
  SGRState.run (s, SGRState.entry) ops
  = (SGRState.set_state s ops, pending ops).
Proof.
  unfold SGRState.set_state, pending.
  rewrite (run_locals ops SGRState.default s SGRState.entry).
  destruct (SGRState.run (s, SGRState.entry) ops); reflexivity.
Qed.

(** A call whose locals end at their entry values can be cut there. *)
Lemma set_state_app_idle (s : SGRState.t) (a b : list Z) :
  pending a = SGRState.entry ->
  SGRState.set_state s (a ++ b)
  = SGRState.set_state (SGRState.set_state s a) b.
Proof.
  intros Ha.
  change (SGRState.set_state s (a ++ b))
    with (fst (SGRState.run (s, SGRState.entry) (a ++ b))).
  rewrite run_app, run_pending, Ha. reflexivity.
Qed.

(** No opcode touches the default foreground index. *)
Lemma dispatch_fg_default (s : SGRState.t) (l : SGRState.locals) (op : Z) :
  SGRState.fg_default (fst (SGRState.dispatch s l op))
  = SGRState.fg_default s.
Proof. unfold SGRState.dispatch. split_ifs; reflexivity. Qed.

Lemma step_fg_default (s : SGRState.t) (l : SGRState.locals) (op : Z) :
  SGRState.fg_default (fst (SGRState.step (s, l) op))
  = SGRState.fg_default s.
Proof.
  unfold SGRState.step.
  destruct (SGRState.op38_256 l); [reflexivity|].
  destruct (negb (SGRState.op38_24 l =? 0)).
  - cbv zeta. destruct (SGRState.op38_24 l - 1 =? 0); reflexivity.
  - destruct (SGRState.op38 l).
    + destruct (op =? 5); [reflexivity|].
      destruct (op =? 2); [reflexivity|].
      rewrite dispatch_fg_default. reflexivity.
    + apply dispatch_fg_default.
Qed.

Lemma run_fg_default (ops : list Z) :
  forall (s : SGRState.t) (l : SGRState.locals),
    SGRState.fg_default (fst (SGRState.run (s, l) ops))
    = SGRState.fg_default s.
Proof.
  induction ops as [|op ops IH]; intros s l; [reflexivity|].
  cbn [SGRState.run fold_left].
  pose proof (step_fg_default s l op) as Hs.
  destruct (SGRState.step (s, l) op) as [s1 l1].
  cbn in Hs. rewrite <- Hs. apply (IH s1 l1).
Qed.

Lemma set_state_fg_default_gen (s : SGRState.t) (ops : list Z) :
  SGRState.fg_default (SGRState.set_state s ops) = SGRState.fg_default s.
Proof. unfold SGRState.set_state. apply run_fg_default. Qed.

(** C4, as the claim states it, on the unit 38;5;1 cut after its first
    opcode: the two calls do not reach the state of the single call. *)
Lemma set_state_split_38_differs :
  set_state_calls SGRState.default [[38]; [5; 1]]
  <> SGRState.set_state SGRState.default [38; 5; 1].
Proof. vm_compute. discriminate. Qed.

(** C4, amended: the pending extended-colour expectation is kept between
    the opcodes of one call only, and is dropped when the call returns.
    Splitting an opcode sequence into consecutive calls gives the state of
    the single call whenever, at each split point, the locals of the call
    are back at their entry values: no extended-colour unit is cut by the
    split, and no RGB unit was completed earlier in that call. *)
Theorem set_state_split (s : SGRState.t) (chunks : list (list Z))
  (last : list Z) :
  Forall (fun c => pending c = SGRState.entry) chunks ->
  set_state_calls s (chunks ++ [last])
  = SGRState.set_state s (List.concat chunks ++ last).
Proof.
  unfold set_state_calls. intros Hidle. revert s.
  induction Hidle as [|c cs Hc _ IH]; intros s; [reflexivity|].
  cbn [app fold_left List.concat]. rewrite IH, <- app_assoc.
  symmetry. apply set_state_app_idle. exact Hc.
Qed.

Lemma set_state_split_witness :
  set_state_calls SGRState.default ([[38; 5; 7]; [1]] ++ [[38; 5; 1]])
  = SGRState.set_state SGRState.default
      (List.concat [[38; 5; 7]; [1]] ++ [38; 5; 1]).
Proof.
  apply (set_state_split SGRState.default [[38; 5; 7]; [1]] [38; 5; 1]).
  repeat constructor.
Defined.

(** C9, as the claim states it, on a bold state and the sequence 38;5;0:
    the final 0 is taken as the palette index and resets nothing. *)
Lemma set_state_final_zero_no_reset :
  SGRState.set_state (SGRState.with_power SGRState.default 1) [38; 5; 0]
  <> reset_of (SGRState.with_power SGRState.default 1).
Proof. vm_compute. discriminate. Qed.

(** C9, amended: for every prior state and every opcode sequence ending in
    opcode 0 whose final 0 is not an operand of an extended-colour unit (the
    call is neither awaiting a palette index nor an RGB component when it
    reaches it), the resulting state has weight delta 0, underline level 0,
    overline level 0, font slot 0, italic, strikethrough and dot decoration
    off, no RGB override, and the foreground at the default index. *)
Theorem set_state_reset (s : SGRState.t) (ops : list Z) :
  SGRState.op38_256 (pending ops) = false ->
  SGRState.op38_24 (pending ops) = 0 ->
  SGRState.set_state s (ops ++ [0]) = reset_of s.
Proof.
  intros H256 H24. unfold SGRState.set_state.
  rewrite run_app, run_pending.
  pose proof (run_fg_default ops s SGRState.entry) as Hfg.
  rewrite run_pending in Hfg. cbn [fst] in Hfg.
  cbn [SGRState.run fold_left]. unfold SGRState.step.
  rewrite H256, H24. cbn [Z.eqb negb].
  unfold reset_of. rewrite <- Hfg.
  destruct (SGRState.op38 (pending ops)); reflexivity.
Qed.

Lemma set_state_reset_witness :
  SGRState.set_state (SGRState.with_power SGRState.default 1)
                     ([1; 38; 5; 3] ++ [0])
  = reset_of (SGRState.with_power SGRState.default 1).
Proof.
  apply (set_state_reset (SGRState.with_power SGRState.default 1)
                         [1; 38; 5; 3]); reflexivity.
Defined.

(** ** Segmentation *)

Lemma findcsiend_le (text : str) : findcsiend text <= Z.max 1 (len text).
Proof.
  unfold findcsiend, py_slice_from, clamp_index. cbn [Z.ltb Z.compare].
  destruct (first_index is_final_byte
              (skipn (Z.to_nat (Z.min 2 (len text))) text)) as [i|] eqn:Hi;
    [|lia].
  apply first_index_lt in Hi. rewrite length_skipn in Hi.
  unfold len in *. lia.
Qed.

Section Segmentation.

Variable east_asian_width : char -> Textwork.eaw.
Variable isspace : char -> bool.

Lemma findword_le (s : str) :
  Textwork.findword east_asian_width isspace s <= len s.
Proof.
  unfold Textwork.findword.
  destruct (first_index (Textwork.word_end east_asian_width isspace) s)
    as [i|] eqn:Hi; [|lia].
  apply first_index_lt in Hi. unfold len. lia.
Qed.

(** The loop keeps [res] a segmentation of [t[:base]] and ends on one of
    the whole of [t]. *)
Lemma split_loop_concat (t : str) (base : Z) (res : list str) :
  0 <= base <= len t ->
  List.concat res = firstn (Z.to_nat base) t ->
  exists toks,
    Textwork.split_loop east_asian_width isspace t base res = Ok toks
    /\ List.concat toks = t.
Proof.
  funelim (Textwork.split_loop east_asian_width isspace t base res);
    intros Hbase Hres.
  - exists res. split; [reflexivity|].
    rewrite Hres. subst base. unfold len. rewrite Nat2Z.id.
    apply firstn_all.
  - destruct (py_index_in_range t base ltac:(lia)) as [a Ha]. congruence.
  - destruct (py_index_nth t base c ltac:(lia) e) as [Hn Hlt].
    apply H; [lia|].
    rewrite concat_app, Hres. cbn [List.concat]. rewrite app_nil_r.
    replace (Z.to_nat (base + 1)) with (S (Z.to_nat base)) by lia.
    symmetry. apply firstn_succ_nth. exact Hn.
  - destruct (py_index_nth t base c ltac:(lia) e) as [Hn Hlt].
    set (w := if char_eqb c ESC
              then findcsiend (py_slice_from t base)
              else Textwork.findword east_asian_width isspace
                     (py_slice_from t base)) in *.
    assert (Hlen : len (py_slice_from t base) = len t - base).
    { rewrite py_slice_from_skipn by lia. unfold len.
      rewrite length_skipn. unfold len in Hlt. lia. }
    assert (Hw : 0 < w <= len t - base).
    { assert (Hu : w <= len t - base).
      { subst w. destruct (char_eqb c ESC).
        - pose proof (findcsiend_le (py_slice_from t base)). lia.
        - pose proof (findword_le (py_slice_from t base)). lia. }
      assert (Hl : 0 <= w).
      { subst w. unfold findcsiend, Textwork.findword, len.
        destruct (char_eqb c ESC);
          match goal with
          | |- context [first_index ?p ?l] => destruct (first_index p l)
          end; lia. }
      lia. }
    apply H; [lia|].
    rewrite concat_app, Hres. cbn [List.concat]. rewrite app_nil_r.
    rewrite py_slice_firstn by lia.
    replace (base + w - base) with w by lia.
    replace (Z.to_nat (base + w)) with (Z.to_nat base + Z.to_nat w)%nat
      by lia.
    symmetry. apply firstn_plus.
Qed.

(** C8: for every input string, [split] returns, and the concatenation of
    the tokens it returns, style tokens as they are, is the input. *)
Theorem split_concat (t : str) :
  exists toks,
    Textwork.split east_asian_width isspace t = Ok toks
    /\ List.concat toks = t.
Proof.
  unfold Textwork.split. apply split_loop_concat.
  - pose proof (len_nonneg t). lia.
  - reflexivity.
Qed.

End Segmentation.

(** ** Punctuation binding *)

Lemma str_in_single_app (c : char) (x y : str) :
  str_in [c] (x ++ y) = str_in [c] x || str_in [c] y.
Proof.
  induction x as [|a x IH]; cbn [app].
  - cbn. reflexivity.
  - cbn [str_in prefixb]. rewrite IH.
    destruct (char_eqb c a); reflexivity.
Qed.

Lemma len_one {A : Type} (l : list A) :
  (len l =? 1) = true -> exists c, l = [c].
Proof.
  intros H. apply Z.eqb_eq in H. unfold len in H.
  destruct l as [|c [|d r]]; cbn in H; try lia. eauto.
Qed.

(** A right-binding character is a punctuation mark. *)
Lemma isrb_ispunc (wd : str) :
  (len wd =? 1) = true -> Textwork._isrb wd = true ->
  Textwork._ispunc wd = true.
Proof.
  intros Hlen Hrb. destruct (len_one wd Hlen) as [c ->].
  unfold Textwork._isrb, Textwork._ispunc in *.
  apply existsb_exists in Hrb. destruct Hrb as [r [Hin Hr]].
  apply existsb_exists. exists r. split; [exact Hin|].
  unfold Textwork.isrb in Hr. rewrite !str_in_single_app.
  apply orb_true_iff in Hr. destruct Hr as [-> | ->];
    rewrite ?orb_true_r; reflexivity.
Qed.

(** A token that starts with the escape character is no right-binding
    single character. *)
Lemma style_not_rb (wd : str) :
  py_index wd 0 = Ok ESC -> (len wd =? 1) && Textwork._isrb wd = false.
Proof.
  intros H0. destruct (len wd =? 1) eqn:Hlen; [|reflexivity].
  destruct (len_one wd Hlen) as [c ->].
  cbn in H0. injection H0 as ->. reflexivity.
Qed.

Lemma append_last_snoc (l : list str) (x wd : str) :
  Textwork.append_last (l ++ [x]) wd = Ok (l ++ [x ++ wd]).
Proof.
  unfold Textwork.append_last, py_index. cbn [Z.ltb Z.compare].
  replace (-1 + len (l ++ [x])) with (len l)
    by (unfold len; rewrite length_app; cbn [List.length]; lia).
  pose proof (len_nonneg l) as Hl.
  destruct (Z.ltb_spec (len l) 0) as [H | H]; [lia|].
  unfold len. rewrite Nat2Z.id, nth_error_app2, Nat.sub_diag by lia.
  cbn. rewrite removelast_last. reflexivity.
Qed.

Lemma combine_loop_app (b : Textwork.binding) (xs ys : list str) :
  Textwork.combine_loop b (xs ++ ys)
  = (b' <- Textwork.combine_loop b xs ;; Textwork.combine_loop b' ys).
Proof.
  revert b. induction xs as [|x xs IH]; intros b; [reflexivity|].
  cbn [app Textwork.combine_loop].
  destruct (Textwork.combine_step b x) as [b1|e]; cbn [bind];
    [apply IH | reflexivity].
Qed.

(** Entries before the last one are out of reach of the loop. *)
Lemma combine_step_prepend (pre : list str) (b : Textwork.binding)
  (wd : str) :
  Textwork.res b <> [] ->
  Textwork.combine_step (prepend pre b) wd
  = (b' <- Textwork.combine_step b wd ;; Ok (prepend pre b'))
  /\ forall b', Textwork.combine_step b wd = Ok b' -> Textwork.res b' <> [].
Proof.
  intros Hne. destruct b as [r p rbf ps]. cbn [Textwork.res] in Hne.
  destruct (exists_last Hne) as [l [x ->]].
  unfold Textwork.combine_step, prepend.
  cbn [Textwork.res Textwork.prb Textwork.rb Textwork.psgr].
  destruct (py_index wd 0) as [c|e]; cbn [bind];
    [|split; [reflexivity | discriminate]].
  destruct (char_eqb c ESC).
  { split.
    - cbn [bind Textwork.res Textwork.prb Textwork.rb Textwork.psgr].
      rewrite <- !app_assoc. reflexivity.
    - intros b' E. injection E as <-. cbn. intros E.
      apply app_eq_nil in E. destruct E as [_ E]. discriminate E. }
  rewrite (app_assoc pre l [x]), !append_last_snoc.
  destruct (rbf && negb ps); cbn [bind Textwork.res Textwork.prb
                                   Textwork.rb Textwork.psgr];
    destruct ((len wd =? 1) && Textwork._ispunc wd);
    cbn [bind Textwork.res Textwork.prb Textwork.rb Textwork.psgr];
    try rewrite !append_last_snoc;
    try (destruct (Textwork._islb wd && negb ps));
    cbn [bind Textwork.res Textwork.prb Textwork.rb Textwork.psgr negb];
    try rewrite !append_last_snoc;
    cbn [bind Textwork.res Textwork.prb Textwork.rb Textwork.psgr negb];
    try (destruct p);
    cbn [bind Textwork.res Textwork.prb Textwork.rb Textwork.psgr negb];
    rewrite <- ?app_assoc;
    (split; [reflexivity|]);
    intros b' E; injection E as <-; cbn; intros E;
    apply app_eq_nil in E; destruct E as [_ E]; discriminate E.
Qed.

Lemma combine_loop_prepend (pre : list str) (ts : list str) :
  forall b : Textwork.binding,
    Textwork.res b <> [] ->
    Textwork.combine_loop (prepend pre b) ts
    = (b' <- Textwork.combine_loop b ts ;; Ok (prepend pre b')).
Proof.
  induction ts as [|wd ts IH]; intros b Hne; [reflexivity|].
  cbn [Textwork.combine_loop].
  destruct (combine_step_prepend pre b wd Hne) as [-> Hne'].
  destruct (Textwork.combine_step b wd) as [b1|e]; cbn [bind];
    [|reflexivity].
  apply IH. apply Hne'. reflexivity.
Qed.

(** After a style token the loop goes on as [combine] starts. *)
Lemma combine_after_style (pre : list str) (sty : str) (b rb : list str) :
  Textwork.combine b = Ok rb ->
  exists bb,
    Textwork.combine_loop
      (Textwork.mkBinding (pre ++ [sty]) false false true) b = Ok bb
    /\ Textwork.res bb = pre ++ sty :: rb.
Proof.
  intros Hb. destruct b as [|b0 r].
  - injection Hb as <-. eexists. split; reflexivity.
  - unfold Textwork.combine in Hb.
    destruct (py_index b0 0) as [c|e] eqn:Hc; cbn [bind] in Hb;
      [|discriminate].
    match type of Hb with
    | bind ?m _ = _ => destruct m as [bi|e] eqn:Hloop
    end; cbn [bind] in Hb; [|discriminate].
    injection Hb as <-.
    cbn [Textwork.combine_loop]. unfold Textwork.combine_step at 1.
    rewrite Hc.
    cbn [bind Textwork.res Textwork.prb Textwork.rb Textwork.psgr
         andb negb].
    destruct (char_eqb c ESC) eqn:Hesc.
    + apply N.eqb_eq in Hesc. subst c.
      rewrite (style_not_rb b0 Hc) in Hloop.
      cbn [bind].
      change (Textwork.mkBinding ((pre ++ [sty]) ++ [b0]) false false true)
        with (prepend (pre ++ [sty])
                (Textwork.mkBinding [b0] false false true)).
      rewrite combine_loop_prepend by discriminate.
      rewrite Hloop. cbn [bind]. eexists. split; [reflexivity|].
      cbn [prepend Textwork.res]. rewrite <- app_assoc. reflexivity.
    + assert (Hinit :
        Textwork.combine_loop
          (prepend (pre ++ [sty])
             (Textwork.mkBinding [b0] false
                ((len b0 =? 1) && Textwork._isrb b0) false)) r
        = Ok (prepend (pre ++ [sty]) bi)).
      { rewrite combine_loop_prepend by discriminate.
        rewrite Hloop. reflexivity. }
      destruct (len b0 =? 1) eqn:Hlen; cbn [andb] in *.
      * destruct (Textwork._ispunc b0) eqn:Hp.
        -- cbn [bind Textwork.res Textwork.prb Textwork.rb Textwork.psgr
                andb negb].
           rewrite andb_false_r.
           cbn [bind Textwork.res Textwork.prb Textwork.rb Textwork.psgr
                andb negb].
           unfold prepend in Hinit. cbn [Textwork.res Textwork.prb
             Textwork.rb Textwork.psgr] in Hinit.
           rewrite Hinit. eexists. split; [reflexivity|].
           cbn [prepend Textwork.res]. rewrite <- app_assoc. reflexivity.
        -- assert (Hrb : Textwork._isrb b0 = false).
           { destruct (Textwork._isrb b0) eqn:Hrb; [|reflexivity].
             rewrite (isrb_ispunc b0 Hlen Hrb) in Hp. discriminate Hp. }
           rewrite Hrb in Hinit.
           cbn [bind Textwork.res Textwork.prb Textwork.rb Textwork.psgr
                andb negb].
           unfold prepend in Hinit. cbn [Textwork.res Textwork.prb
             Textwork.rb Textwork.psgr] in Hinit.
           rewrite Hinit. eexists. split; [reflexivity|].
           cbn [prepend Textwork.res]. rewrite <- app_assoc. reflexivity.
      * cbn [bind Textwork.res Textwork.prb Textwork.rb Textwork.psgr
             andb negb].
        unfold prepend in Hinit. cbn [Textwork.res Textwork.prb
          Textwork.rb Textwork.psgr] in Hinit.
        rewrite Hinit. eexists. split; [reflexivity|].
        cbn [prepend Textwork.res]. rewrite <- app_assoc. reflexivity.
Qed.

(** C7: a style token resets the binding state as at input start.  The
    tokens before a style token and the tokens after it are bound
    separately, and the style token stays an entry of its own between the
    two results; so [combine] on "word", the bold style token and "," keeps
    the comma an entry of its own. *)
Theorem combine_style_boundary (a b : list str) (sty : str)
  (ra rb : list str) :
  py_index sty 0 = Ok ESC ->
  Textwork.combine a = Ok ra ->
  Textwork.combine b = Ok rb ->
  Textwork.combine (a ++ sty :: b) = Ok (ra ++ sty :: rb)
  /\ Textwork.combine [lit "word"; sgr_bold; lit ","]
     = Ok [lit "word"; sgr_bold; lit ","].
Proof.
  intros Hsty Ha Hb. split; [|reflexivity].
  destruct a as [|a0 ar].
  - injection Ha as <-. cbn [app Textwork.combine]. rewrite Hsty.
    cbn [bind]. rewrite (style_not_rb sty Hsty).
    destruct (combine_after_style [] sty b rb Hb) as [bb [Hloop Hres]].
    cbn [app] in Hloop. change (char_eqb ESC ESC) with true.
    rewrite Hloop. cbn [bind]. rewrite Hres. reflexivity.
  - unfold Textwork.combine in Ha |- *. cbn [app].
    destruct (py_index a0 0) as [c|e]; cbn [bind] in *; [|discriminate].
    rewrite combine_loop_app.
    match type of Ha with
    | bind ?m _ = _ => destruct m as [ba|e] eqn:Hloop
    end; cbn [bind] in *; [|discriminate].
    injection Ha as <-.
    cbn [Textwork.combine_loop]. unfold Textwork.combine_step at 1.
    rewrite Hsty. cbn [bind]. change (char_eqb ESC ESC) with true.
    cbn [bind].
    destruct (combine_after_style (Textwork.res ba) sty b rb Hb)
      as [bb [Hloop' Hres]].
    rewrite Hloop'. cbn [bind]. rewrite Hres. reflexivity.
Qed.

Lemma combine_style_boundary_witness :
  Textwork.combine ([lit "word"] ++ sgr_bold :: [lit ","])
  = Ok ([lit "word"] ++ sgr_bold :: [lit ","])
  /\ Textwork.combine [lit "word"; sgr_bold; lit ","]
     = Ok [lit "word"; sgr_bold; lit ","].
Proof.
  apply (combine_style_boundary [lit "word"] [lit ","] sgr_bold
           [lit "word"] [lit ","]); reflexivity.
Defined.

(** Segmentation makes each of two adjacent em dashes a token. *)
Example split_two_dashes :
  Textwork.split sample_eaw sample_isspace [em_dash; em_dash]
  = Ok [[em_dash]; [em_dash]].
Proof. vm_compute. reflexivity. Qed.

(** C6, at the failing input: two em dashes, each a token of its own as
    [split] hands them over.  The first is right-binding, so the second is
    appended to it; the second is left-binding too, so it is appended once
    more: the only entry holds three dashes where the input has two. *)
Theorem combine_duplicates_dash :
  Textwork.combine [[em_dash]; [em_dash]]
  = Ok [[em_dash; em_dash; em_dash]]
  /\ List.concat [[em_dash; em_dash; em_dash]]
     <> List.concat [[em_dash]; [em_dash]].
Proof. split; [reflexivity | discriminate]. Qed.

(** What one iteration adds to the entries: the token, and the token once
    more when it meets both binding branches. *)
Lemma combine_step_concat (b b' : Textwork.binding) (wd : str) :
  Textwork.res b <> [] -> Textwork.prb b = false ->
  Textwork.combine_step b wd = Ok b' ->
  List.concat (Textwork.res b')
  = List.concat (Textwork.res b) ++ wd
    ++ (if bound_twice b wd then wd else [])
  /\ Textwork.res b' <> [] /\ Textwork.prb b' = false.
Proof.
  intros Hne Hprb. destruct b as [r p rbf ps].
  cbn [Textwork.res Textwork.prb] in Hne, Hprb. subst p.
  destruct (exists_last Hne) as [l [x ->]].
  unfold Textwork.combine_step, bound_twice.
  cbn [Textwork.res Textwork.prb Textwork.rb Textwork.psgr].
  destruct (py_index wd 0) as [c|e] eqn:Hc; cbn [bind]; [|discriminate].
  destruct (char_eqb c ESC) eqn:Hesc.
  { apply N.eqb_eq in Hesc. subst c. intros E. injection E as <-.
    cbn [Textwork.res Textwork.prb].
    assert (Hnp : (len wd =? 1) && Textwork._ispunc wd = false).
    { destruct (len wd =? 1) eqn:Hlen; [|reflexivity].
      destruct (len_one wd Hlen) as [c ->].
      cbn in Hc. injection Hc as ->. reflexivity. }
    rewrite Hnp, andb_false_r, concat_app. cbn. rewrite !app_nil_r.
    repeat split. intros E. apply app_eq_nil in E.
    destruct E as [_ E]. discriminate E. }
  rewrite !append_last_snoc.
  destruct rbf, ps;
    cbn [bind Textwork.res Textwork.prb Textwork.rb Textwork.psgr andb
         negb];
    destruct ((len wd =? 1) && Textwork._ispunc wd);
    cbn [bind Textwork.res Textwork.prb Textwork.rb Textwork.psgr andb
         negb];
    try (destruct (Textwork._islb wd); cbn [andb negb]);
    cbn [bind Textwork.res Textwork.prb Textwork.rb Textwork.psgr negb];
    rewrite ?append_last_snoc;
    cbn [bind Textwork.res Textwork.prb Textwork.rb Textwork.psgr negb];
    intros E; injection E as <-;
    cbn [Textwork.res Textwork.prb];
    rewrite ?concat_app; cbn [List.concat]; rewrite <- ?app_assoc;
    rewrite ?app_nil_r;
    (split; [reflexivity|]); (split; [|reflexivity]);
    intros E; apply app_eq_nil in E; destruct E as [_ E]; discriminate E.
Qed.

(** Binding only regroups the tokens as long as none of them meets both
    branches. *)
Lemma combine_loop_concat (ts : list str) :
  forall b b' : Textwork.binding,
    Textwork.res b <> [] -> Textwork.prb b = false ->
    twice_bound b ts = [] ->
    Textwork.combine_loop b ts = Ok b' ->
    List.concat (Textwork.res b')
    = List.concat (Textwork.res b) ++ List.concat ts.
Proof.
  induction ts as [|wd ts IH]; intros b b' Hne Hprb Hnone Hloop.
  - injection Hloop as <-. cbn. rewrite app_nil_r. reflexivity.
  - cbn [Textwork.combine_loop twice_bound] in *.
    destruct (Textwork.combine_step b wd) as [b1|e] eqn:Hstep;
      cbn [bind] in Hloop; [|discriminate].
    apply app_eq_nil in Hnone. destruct Hnone as [Hhere Hrest].
    destruct (combine_step_concat b b1 wd Hne Hprb Hstep)
      as (Hcat & Hne1 & Hprb1).
    destruct (bound_twice b wd); [discriminate Hhere|].
    rewrite (IH b1 b' Hne1 Hprb1 Hrest Hloop), Hcat.
    cbn [List.concat]. rewrite app_nil_r, <- app_assoc. reflexivity.
Qed.

(** X23: binding only regroups the characters of a token stream in which no
    token meets both binding branches: the concatenation of the entries is
    the concatenation of the tokens. *)
Lemma combine_concat (t0 : str) (r out : list str) (c : char) :
  py_index t0 0 = Ok c ->
  twice_bound
    (Textwork.mkBinding [t0] false ((len t0 =? 1) && Textwork._isrb t0)
                        (char_eqb c ESC)) r = [] ->
  Textwork.combine (t0 :: r) = Ok out ->
  List.concat out = List.concat (t0 :: r).
Proof.
  intros Hc Hnone. unfold Textwork.combine. rewrite Hc. cbn [bind].
  match goal with
  | |- bind ?m _ = _ -> _ => destruct m as [b|e] eqn:Hloop
  end; cbn [bind]; [|discriminate].
  intros E. injection E as <-.
  apply combine_loop_concat in Hloop;
    [ rewrite Hloop; cbn; rewrite app_nil_r; reflexivity
    | discriminate | reflexivity | exact Hnone ].
Qed.

(** ** Line layout *)


Section Layout.

Variable isspace : char -> bool.
Variable py_int : str -> result Z.
Variable textbbox : GenericFont -> str -> Z * Z.





(** The loop over a token list goes through a prefix of it first: the
    loop variables a token meets are those the loop leaves after the tokens
    before it. *)
Lemma text_loop_app (justify : bool) (pre rest : list str) :
  forall l : RichCanvas.line,
    RichCanvas.text_loop isspace py_int textbbox justify l (pre ++ rest)
    = (l1 <- RichCanvas.text_loop isspace py_int textbbox justify l pre ;;
       RichCanvas.text_loop isspace py_int textbbox justify l1 rest).
Proof.
  induction pre as [|wd pre IH]; intros l; [reflexivity|].
  cbn [app RichCanvas.text_loop].
  destruct (RichCanvas.text_step isspace py_int textbbox justify l wd)
    as [l1|e]; cbn [bind]; [apply IH | reflexivity].
Qed.



End Layout.


(** Leading blanks are enqueued, not necessarily painted: on a region 33
    units wide the three blanks before "aaa" are stripped by the break the
    word forces, and the word is painted alone on the second line. *)
Example leading_blanks_stripped :
  exists st out,
    sample_text 33 (lit "   aaa") true = Ok (st, out)
    /\ map shown out = [(0%Q, 30%Q, lit "aaa")].
Proof.
  eexists. eexists. split; [vm_compute; reflexivity | reflexivity].
Qed.

(** C1, at the failing input: the region is 33 units wide and the text is
    "a b ", the underline style token, then "c".  The word "c" does not fit
    and forces the break with one trailing blank to strip; the strip pops
    the last queue entry, which is the style token, and leaves the blank.
    The flushed line holds "a", " ", "b", " ", of widths 10, 5, 10, 5, and
    the remainder is 8, shared as 4 per token: the last token is painted at
    37 and ends at 42, nine units past the region width, and widths plus
    remainder make 38.  The style token is never applied. *)
Theorem justify_keeps_blank_after_style :
  RichCanvas.pop_n 1 [(lit "a", 10); (lit " ", 5); (lit "b", 10);
                      (lit " ", 5); (sgr_underline, 0)]
  = Ok [(lit "a", 10); (lit " ", 5); (lit "b", 10); (lit " ", 5)]
  /\ exists st out,
       sample_text 33 (lit "a b " ++ sgr_underline ++ lit "c") true
       = Ok (st, out)
       /\ map shown out
          = [(0%Q, 0%Q, lit "a"); (14%Q, 0%Q, lit " ");
             (23%Q, 0%Q, lit "b"); (37%Q, 0%Q, lit " ");
             (0%Q, 30%Q, lit "c")]
       /\ SGRState.uline (TextDrawState.sgr st) = 0.
Proof.
  split; [reflexivity|].
  eexists. eexists. split; [vm_compute; reflexivity|].
  split; reflexivity.
Qed.

(** ** Justified lines on streams without style tokens *)

Lemma widths_app (q r : list (str * Z)) :
  widths (q ++ r) = widths q + widths r.
Proof.
  induction q as [|it q IH]; [reflexivity|].
  change (widths ((it :: q) ++ r)) with (snd it + widths (q ++ r)).
  change (widths (it :: q)) with (snd it + widths q). lia.
Qed.

Lemma len_app {A : Type} (q r : list A) : len (q ++ r) = len q + len r.
Proof. unfold len. rewrite length_app. lia. Qed.

(** Popping as many entries as the tail holds leaves what precedes it. *)
Lemma pop_n_tail {A : Type} (pre tail : list A) :
  RichCanvas.pop_n (List.length tail) (pre ++ tail) = Ok pre.
Proof.
  induction tail as [|x tail IH] using rev_ind.
  - cbn. rewrite app_nil_r. reflexivity.
  - rewrite length_app, Nat.add_comm. cbn [List.length Nat.add].
    cbn [RichCanvas.pop_n]. rewrite app_assoc, removelast_last.
    destruct ((pre ++ tail) ++ [x]) eqn:E; [|exact IH].
    apply app_eq_nil in E. destruct E as [_ E]. discriminate E.
Qed.

Lemma removelast_shorter {A : Type} (x : A) (q : list A) :
  List.length (removelast (x :: q)) = List.length q.
Proof.
  revert x. induction q as [|y q IH]; intros x; [reflexivity|].
  change (removelast (x :: y :: q)) with (x :: removelast (y :: q)).
  cbn [List.length]. rewrite IH. reflexivity.
Qed.

(** Popping at least as many entries as the queue holds leaves nothing. *)
Lemma pop_n_short {A : Type} (n : nat) :
  forall q q' : list A,
    (List.length q <= n)%nat -> RichCanvas.pop_n n q = Ok q' -> q' = [].
Proof.
  induction n as [|n IH]; intros q q' Hlen; cbn [RichCanvas.pop_n].
  - destruct q as [|x q]; cbn [List.length] in Hlen; [congruence | lia].
  - destruct q as [|x q]; [discriminate|].
    apply IH. rewrite removelast_shorter.
    cbn [List.length] in Hlen. lia.
Qed.

Section Justification.

Variable isspace : char -> bool.
Variable py_int : str -> result Z.
Variable textbbox : GenericFont -> str -> Z * Z.

Lemma queue_ok_fresh (p : RichCanvas.painter) : queue_ok (RichCanvas.fresh p).
Proof.
  unfold queue_ok. cbn.
  split; [reflexivity|]. split; [lia|]. split; [reflexivity|].
  split; [constructor|]. right. lia.
Qed.

(** The second half of the loop body: skip the token or enqueue it. *)
Lemma queue_ok_enqueue (l1 l' : RichCanvas.line) (wd : str) (w : Z) :
  queue_ok l1 -> text_token wd ->
  (if negb (truthy (RichCanvas.rq l1))
      && negb (truthy (RichCanvas.strip isspace wd))
      && negb (RichCanvas.lwr l1)
   then Ok l1
   else
     let rw2 := RichCanvas.rw l1 + w in
     let rq2 := RichCanvas.rq l1 ++ [(wd, w)] in
     if truthy (RichCanvas.strip isspace wd)
     then Ok (RichCanvas.mkLine rq2 rw2 (RichCanvas.rh l1) 0 0 false
                (RichCanvas.sty l1) (RichCanvas.pen l1))
     else Ok (RichCanvas.mkLine rq2 rw2 (RichCanvas.rh l1)
                (RichCanvas.ws l1 + 1) (RichCanvas.wsw l1 + w)
                (RichCanvas.lwr l1) (RichCanvas.sty l1) (RichCanvas.pen l1)))
  = Ok l' ->
  queue_ok l'.
Proof.
  intros (Hrw & Hws & Hsty & Hall & Htail) Htok.
  destruct (negb (truthy (RichCanvas.rq l1))
            && negb (truthy (RichCanvas.strip isspace wd))
            && negb (RichCanvas.lwr l1)).
  { intros E. injection E as <-. unfold queue_ok. auto. }
  cbv zeta.
  assert (Hall' : Forall (fun it => text_token (fst it))
                         (RichCanvas.rq l1 ++ [(wd, w)])).
  { apply Forall_app. split; [exact Hall|]. repeat constructor. exact Htok. }
  assert (Hrw' : RichCanvas.rw l1 + w
                 = widths (RichCanvas.rq l1 ++ [(wd, w)])).
  { rewrite widths_app. cbn. lia. }
  destruct (truthy (RichCanvas.strip isspace wd));
    intros E; injection E as <-; unfold queue_ok;
    cbn [RichCanvas.rq RichCanvas.rw RichCanvas.ws RichCanvas.wsw
         RichCanvas.sty];
    repeat (split; [solve [auto | lia]|]).
  - left. exists (RichCanvas.rq l1 ++ [(wd, w)]), [].
    rewrite app_nil_r. repeat split.
  - destruct Htail as [(pre & tail & Hq & Hlen & Hw) | Hshort].
    + left. exists pre, (tail ++ [(wd, w)]).
      rewrite Hq, <- app_assoc, len_app, widths_app. cbn. repeat split; lia.
    + right. rewrite len_app. cbn. lia.
Qed.

(** The loop body keeps the invariant. *)
Lemma queue_ok_step (justify : bool) (l l' : RichCanvas.line) (wd : str) :
  queue_ok l -> text_token wd ->
  RichCanvas.text_step isspace py_int textbbox justify l wd = Ok l' ->
  queue_ok l'.
Proof.
  intros Hok Htok. pose proof Htok as (c & Hc & Hesc).
  unfold RichCanvas.text_step. rewrite Hc. cbn [bind]. rewrite Hesc.
  destruct (TextDrawState.current_font (fst (RichCanvas.pen l)))
    as [font|e]; cbn [bind]; [|discriminate].
  destruct (textbbox font wd) as [w h].
  destruct (RichCanvas.rw l + w >? _).
  - destruct (RichCanvas.pop_n (Z.to_nat (RichCanvas.ws l))
                (RichCanvas.rq l)) as [q|e]; cbn [bind]; [|discriminate].
    destruct (RichCanvas._draw_text py_int (RichCanvas.pen l) q _ _)
      as [[st' out']|e]; cbn [bind]; [|discriminate].
    destruct (TextDrawState.curpos st') as [cx cy]. cbn [bind].
    apply queue_ok_enqueue; [|exact Htok].
    destruct Hok as (_ & Hws & _). unfold queue_ok. cbn.
    split; [reflexivity|]. split; [lia|]. split; [reflexivity|].
    split; [constructor|]. right. lia.
  - cbn [bind]. apply queue_ok_enqueue; [|exact Htok].
    unfold queue_ok in *. cbn. exact Hok.
Qed.

Lemma plain_reachable_ok (justify : bool) (p0 : RichCanvas.painter)
  (l : RichCanvas.line) :
  plain_reachable isspace py_int textbbox justify p0 l -> queue_ok l.
Proof.
  induction 1 as [|l l' wd _ IH Htok Hstep].
  - apply queue_ok_fresh.
  - exact (queue_ok_step justify l l' wd IH Htok Hstep).
Qed.

(** At a forced break the strip leaves what precedes the trailing blanks,
    and its widths and the remainder add up to the region width. *)
Lemma flush_widths (l : RichCanvas.line) (q : list (str * Z)) (W : Z) :
  queue_ok l ->
  RichCanvas.pop_n (Z.to_nat (RichCanvas.ws l)) (RichCanvas.rq l) = Ok q ->
  2 <= len q ->
  widths q + (W - RichCanvas.rw l + RichCanvas.wsw l) = W
  /\ Forall (fun it => text_token (fst it)) q.
Proof.
  intros (Hrw & Hws & _ & Hall & [(pre & tail & Hq & Hlen & Hw) | Hshort])
         Hpop Htwo.
  - rewrite Hq in Hpop, Hall, Hrw.
    replace (Z.to_nat (RichCanvas.ws l)) with (List.length tail) in Hpop
      by (unfold len in Hlen; lia).
    rewrite pop_n_tail in Hpop. injection Hpop as <-.
    rewrite widths_app in Hrw. apply Forall_app in Hall.
    split; [lia | apply Hall].
  - apply pop_n_short in Hpop; [|unfold len in Hshort; lia].
    subst q. cbn in Htwo. lia.
Qed.

(** Where [_draw_text] paints the tokens of a queue without style tokens:
    each at the start position plus what the cursor covered before it. *)
Lemma draw_items_positions (breadcrumb n : Z) (q : list (str * Z)) :
  forall (st st' : TextDrawState.t) (out out' : list RichCanvas.paint),
    Forall (fun it => text_token (fst it)) q ->
    RichCanvas.draw_items py_int breadcrumb n (st, out) q = Ok (st', out') ->
    TextDrawState.land st' = TextDrawState.land st
    /\ exists ps,
         out' = out ++ ps
         /\ List.length ps = List.length q
         /\ forall i p,
              nth_error ps i = Some p ->
              (fst (RichCanvas.xy p)
               == fst (TextDrawState.curpos st)
                  + inject_Z (Rect.x (TextDrawState.land st))
                  + advance breadcrumb n (firstn i q))%Q.
Proof.
  induction q as [|[wd wi] r IH]; intros st st' out out' Hall Hrun.
  - cbn in Hrun. injection Hrun as <- <-. split; [reflexivity|].
    exists []. rewrite app_nil_r. repeat split.
    intros [|i] p Hp; discriminate Hp.
  - apply Forall_cons_iff in Hall. destruct Hall as [(c & Hc & Hesc) Hall].
    cbn [fst] in Hc. cbn [RichCanvas.draw_items] in Hrun.
    unfold RichCanvas.draw_item in Hrun. rewrite Hc in Hrun.
    cbn [bind] in Hrun. rewrite Hesc in Hrun.
    destruct (wi =? 0); [discriminate|].
    destruct (TextDrawState.curpos st) as [cx cy] eqn:Hpos.
    destruct (TextDrawState.current_color st) as [color|e];
      cbn [bind] in Hrun; [|discriminate].
    destruct (TextDrawState.current_font st) as [font|e];
      cbn [bind] in Hrun; [|discriminate].
    apply IH in Hrun; [|exact Hall].
    destruct Hrun as (Hland & ps & Hout & Hlen & Hxs).
    cbn [TextDrawState.with_curpos TextDrawState.land
         TextDrawState.curpos fst] in Hland, Hxs.
    split; [exact Hland|].
    eexists (_ :: ps). split; [rewrite Hout, <- app_assoc; reflexivity|].
    split; [cbn [List.length]; rewrite Hlen; reflexivity|].
    intros [|i] p Hp.
    + injection Hp as <-. cbn [RichCanvas.xy fst firstn advance fold_right].
      ring.
    + cbn [nth_error] in Hp. rewrite (Hxs i p Hp).
      cbn [firstn advance fold_right snd fst].
      fold (advance breadcrumb n (firstn i r)). ring.
Qed.

Lemma advance_widths (breadcrumb n : Z) (q : list (str * Z)) :
  (advance breadcrumb n q
   == inject_Z (widths q)
      + inject_Z (len q) * (inject_Z breadcrumb / inject_Z n))%Q.
Proof.
  induction q as [|it q IH].
  - cbn. ring.
  - change (advance breadcrumb n (it :: q))
      with (inject_Z (snd it) + inject_Z breadcrumb / inject_Z n
            + advance breadcrumb n q)%Q.
    change (widths (it :: q)) with (snd it + widths q).
    replace (len (it :: q)) with (1 + len q)
      by (unfold len; cbn [List.length]; lia).
    rewrite IH, !inject_Z_plus. ring.
Qed.

Lemma last_split {A : Type} (q : list A) (a : A) :
  nth_error q (List.length q - 1) = Some a ->
  q = firstn (List.length q - 1) q ++ [a].
Proof.
  intros Hn. rewrite <- (firstn_skipn (List.length q - 1) q) at 1.
  f_equal.
  assert (Hlt : (List.length q - 1 < List.length q)%nat).
  { apply nth_error_Some. congruence. }
  pose proof (nth_error_split q _ Hn) as (l1 & l2 & Hq & Hl1).
  rewrite Hq at 2. rewrite skipn_app, Hl1, Nat.sub_diag.
  rewrite skipn_all2 by lia. cbn.
  assert (Hl2 : List.length l2 = O).
  { rewrite Hq, length_app in Hl1. cbn [List.length] in Hl1. lia. }
  destruct l2; [reflexivity | discriminate Hl2].
Qed.

(** With the cursor taken in exact arithmetic, as the model has it (the
    code adds floats, which can be off in the last place): on a token
    stream without style tokens, a line flushed by a forced break with
    justification and holding at least two tokens spans the region width,
    from where its first token is painted to where its last token ends. *)
Theorem forced_flush_span (p0 : RichCanvas.painter) (l : RichCanvas.line)
  (q : list (str * Z)) (st' : TextDrawState.t)
  (out' : list RichCanvas.paint) :
  let W := Rect.w (TextDrawState.land (fst (RichCanvas.pen l))) in
  plain_reachable isspace py_int textbbox true p0 l ->
  RichCanvas.pop_n (Z.to_nat (RichCanvas.ws l)) (RichCanvas.rq l) = Ok q ->
  2 <= len q ->
  RichCanvas._draw_text py_int (RichCanvas.pen l) q
    (W - RichCanvas.rw l + RichCanvas.wsw l) (RichCanvas.sty l)
  = Ok (st', out') ->
  exists ps,
    out' = snd (RichCanvas.pen l) ++ ps
    /\ List.length ps = List.length q
    /\ forall pf pl itl,
         nth_error ps 0 = Some pf ->
         nth_error ps (List.length q - 1) = Some pl ->
         nth_error q (List.length q - 1) = Some itl ->
         (fst (RichCanvas.xy pl) + inject_Z (snd itl)
          - fst (RichCanvas.xy pf) == inject_Z W)%Q.
Proof.
  intros W Hreach Hpop Htwo Hdraw.
  apply plain_reachable_ok in Hreach.
  destruct (flush_widths l q W Hreach Hpop Htwo) as [Hsum Hall].
  destruct Hreach as (_ & _ & Hsty & _).
  unfold RichCanvas._draw_text in Hdraw. rewrite Hsty in Hdraw.
  replace (Z.max 1 (len q - 1 - 0)) with (len q - 1) in Hdraw by lia.
  destruct (RichCanvas.pen l) as [st out]. cbn [fst snd] in *.
  apply draw_items_positions in Hdraw; [|exact Hall].
  destruct Hdraw as (_ & ps & Hout & Hlen & Hxs).
  exists ps. split; [exact Hout|]. split; [exact Hlen|].
  intros pf pl itl Hpf Hpl Hitl.
  rewrite (Hxs _ _ Hpf), (Hxs _ _ Hpl).
  cbn [firstn advance fold_right]. rewrite advance_widths.
  pose proof (last_split q itl Hitl) as Hq.
  set (q1 := firstn (List.length q - 1) q) in *.
  assert (Hlen1 : len q1 = len q - 1).
  { rewrite Hq at 1. rewrite len_app. cbn. lia. }
  assert (Hw1 : widths q = widths q1 + snd itl).
  { rewrite Hq at 1. rewrite widths_app. cbn. lia. }
  rewrite Hlen1, Qmult_div_r.
  - replace W with (widths q1 + snd itl
                    + (W - RichCanvas.rw l + RichCanvas.wsw l)) at 2 by lia.
    rewrite !inject_Z_plus. ring.
  - intros E. apply (inject_Z_injective (len q - 1) 0) in E. lia.
Qed.




End Justification.

(** The loop variables [sample_line] are those after "aa", " ", "bb", " "
    on a region 50 units wide. *)
Lemma sample_line_reachable :
  plain_reachable sample_isspace sample_int sample_textbbox true
    (sample_state 50, []) sample_line.
Proof.
  apply (reach_step _ _ _ _ _
           (RichCanvas.mkLine
              [(lit "aa", 20); (lit " ", 5); (lit "bb", 20)]
              45 26 0 0 false 0 (sample_state 50, []))
           _ (lit " ")).
  - apply (reach_step _ _ _ _ _
             (RichCanvas.mkLine [(lit "aa", 20); (lit " ", 5)]
                25 26 1 5 false 0 (sample_state 50, []))
             _ (lit "bb")).
    + apply (reach_step _ _ _ _ _
               (RichCanvas.mkLine [(lit "aa", 20)]
                  20 26 0 0 false 0 (sample_state 50, []))
               _ (lit " ")).
      * apply (reach_step _ _ _ _ _
                 (RichCanvas.fresh (sample_state 50, []))
                 _ (lit "aa")).
        -- apply reach_fresh.
        -- eexists. split; reflexivity.
        -- reflexivity.
      * eexists. split; reflexivity.
      * reflexivity.
    + eexists. split; reflexivity.
    + reflexivity.
  - eexists. split; reflexivity.
  - reflexivity.
Qed.


(** The same flush with its positions: "aa", " ", "bb" with a remainder of
    5, and "bb" ends at 50. *)
Example forced_flush_span_sample :
  exists st' out',
    RichCanvas._draw_text sample_int (sample_state 50, []) sample_flushed
      5 0 = Ok (st', out')
    /\ map shown out'
       = [(0%Q, 0%Q, lit "aa"); (45 # 2, 0%Q, lit " ");
          (30%Q, 0%Q, lit "bb")]
    /\ exists ps,
         out' = [] ++ ps
         /\ List.length ps = 3%nat
         /\ forall pf pl itl,
              nth_error ps 0 = Some pf ->
              nth_error ps 2 = Some pl ->
              nth_error sample_flushed 2 = Some itl ->
              (fst (RichCanvas.xy pl) + inject_Z (snd itl)
               - fst (RichCanvas.xy pf) == inject_Z 50)%Q.
Proof.
  eexists. eexists. split; [vm_compute; reflexivity|].
  split; [reflexivity|].
  eapply (forced_flush_span sample_isspace sample_int sample_textbbox
            (sample_state 50, []) sample_line sample_flushed).
  - exact sample_line_reachable.
  - reflexivity.
  - vm_compute. discriminate.
  - vm_compute. reflexivity.
Qed.

(** * Further properties of the code *)

(** ** Rectangle algebra *)

(** X1: a rectangle whose width and height are not negative is rebuilt from
    its own corner points. *)
Theorem from_ltrb_ltrb (r : Rect.t) :
  0 <= Rect.w r -> 0 <= Rect.h r ->
  Rect.from_ltrb (Rect.lt r) (Rect.rb r) = Ok r.
Proof.
  intros Hw Hh. destruct r as [x y w h]. cbn in *.
  destruct (Z.gtb_spec x (x + w)) as [H | H]; [lia|].
  destruct (Z.gtb_spec y (y + h)) as [H' | H']; [lia|].
  cbn [xorb]. f_equal. f_equal; lia.
Qed.

Lemma from_ltrb_ltrb_witness :
  Rect.from_ltrb (Rect.lt (Rect.mk 3 4 10 0)) (Rect.rb (Rect.mk 3 4 10 0))
  = Ok (Rect.mk 3 4 10 0).
Proof. apply (from_ltrb_ltrb (Rect.mk 3 4 10 0)); cbn; lia. Defined.

(** X2: when the two corner points differ on both axes their order does not
    matter: both orders fail, or both give the same rectangle.  (With a
    shared coordinate it does: (0,0),(0,5) is accepted and (0,5),(0,0) is
    refused.) *)
Theorem from_ltrb_swap (x0 y0 x1 y1 : Z) :
  x0 <> x1 -> y0 <> y1 ->
  Rect.from_ltrb (x0, y0) (x1, y1) = Rect.from_ltrb (x1, y1) (x0, y0).
Proof.
  intros Hx Hy. unfold Rect.from_ltrb.
  destruct (Z.gtb_spec x0 x1), (Z.gtb_spec y0 y1),
           (Z.gtb_spec x1 x0), (Z.gtb_spec y1 y0);
    cbn [xorb]; try lia; try reflexivity;
    f_equal; f_equal; lia.
Qed.

Lemma from_ltrb_swap_witness :
  Rect.from_ltrb (10, 0) (0, -5) = Rect.from_ltrb (0, -5) (10, 0).
Proof. apply (from_ltrb_swap 10 0 0 (-5)); discriminate. Defined.

Lemma from_ltrb_shared_coordinate :
  Rect.from_ltrb (0, 0) (0, 5) = Ok (Rect.mk 0 0 0 5)
  /\ Rect.from_ltrb (0, 5) (0, 0) = Raise ArithmeticError.
Proof. split; reflexivity. Qed.

Lemma remap_fold (rect : list Rect.t) :
  forall self : Rect.t,
    Rect.remap self rect
    = Rect.mk (Rect.x self + fold_right (fun r acc => Rect.x r + acc) 0 rect)
              (Rect.y self + fold_right (fun r acc => Rect.y r + acc) 0 rect)
              (Rect.w self) (Rect.h self).
Proof.
  unfold Rect.remap.
  induction rect as [|r rect IH]; intros self; cbn [fold_left fold_right].
  - destruct self. cbn. f_equal; lia.
  - rewrite IH. destruct self, r. cbn. f_equal; lia.
Qed.

(** X3: remapping through a sequence of frames translates the rectangle by
    the sum of the frames' origins and keeps its width and height; so the
    order of the frames does not matter. *)
Theorem remap_permutation (self : Rect.t) (frames frames' : list Rect.t) :
  Permutation frames frames' ->
  Rect.remap self frames = Rect.remap self frames'
  /\ Rect.wh (Rect.remap self frames) = Rect.wh self.
Proof.
  intros Hperm. rewrite !remap_fold. split; [|reflexivity].
  f_equal; f_equal.
  - induction Hperm; cbn [fold_right]; lia.
  - induction Hperm; cbn [fold_right]; lia.
Qed.

Lemma remap_permutation_witness :
  Rect.remap (Rect.mk 1 2 3 4) [Rect.mk 10 20 0 0; Rect.mk 100 200 5 5]
  = Rect.remap (Rect.mk 1 2 3 4) [Rect.mk 100 200 5 5; Rect.mk 10 20 0 0]
  /\ Rect.wh (Rect.remap (Rect.mk 1 2 3 4)
                [Rect.mk 10 20 0 0; Rect.mk 100 200 5 5])
     = Rect.wh (Rect.mk 1 2 3 4).
Proof.
  apply (remap_permutation (Rect.mk 1 2 3 4)
           [Rect.mk 10 20 0 0; Rect.mk 100 200 5 5]
           [Rect.mk 100 200 5 5; Rect.mk 10 20 0 0]).
  apply perm_swap.
Defined.

(** X4: remapping composes: through the frames [a] and then through the
    frames [b] is remapping through [a ++ b]; and a point is in a rectangle
    exactly when the point moved by a frame's origin is in the rectangle
    remapped to that frame. *)
Theorem remap_compose (self : Rect.t) (a b : list Rect.t)
  (frame : Rect.t) (px py : Z) :
  Rect.remap (Rect.remap self a) b = Rect.remap self (a ++ b)
  /\ Rect.__contains__ (Rect.remap self [frame])
       (px + Rect.x frame, py + Rect.y frame)
     = Rect.__contains__ self (px, py).
Proof.
  split.
  - unfold Rect.remap. rewrite fold_left_app. reflexivity.
  - destruct self as [x y w h], frame as [fx fy fw fh]. cbn.
    destruct (Z.leb_spec x px), (Z.leb_spec (fx + x) (px + fx)); try lia;
    destruct (Z.leb_spec px (x + w)),
             (Z.leb_spec (px + fx) (fx + x + w)); try lia;
    destruct (Z.leb_spec y py), (Z.leb_spec (fy + y) (py + fy)); try lia;
    destruct (Z.leb_spec py (y + h)),
             (Z.leb_spec (py + fy) (fy + y + h)); try lia;
    reflexivity.
Qed.

(** X5: the intersection does not depend on the order of its operands, and
    its width and height are never negative, whatever the operands. *)
Theorem cross_comm (a b : Rect.t) :
  Rect.__mul__ a b = Rect.__mul__ b a
  /\ 0 <= Rect.w (Rect.__mul__ a b) /\ 0 <= Rect.h (Rect.__mul__ a b).
Proof.
  unfold Rect.__mul__, Rect._cross. cbn. repeat split; try lia.
  f_equal; lia.
Qed.

(** X6: for two rectangles of non-negative size that meet on both axes, a
    point is in their intersection exactly when it is in both. *)
Theorem cross_contains (a b : Rect.t) (px py : Z) :
  0 <= Rect.w a -> 0 <= Rect.h a -> 0 <= Rect.w b -> 0 <= Rect.h b ->
  Z.max (Rect.x a) (Rect.x b)
    <= Z.min (Rect.x a + Rect.w a) (Rect.x b + Rect.w b) ->
  Z.max (Rect.y a) (Rect.y b)
    <= Z.min (Rect.y a + Rect.h a) (Rect.y b + Rect.h b) ->
  Rect.__contains__ (Rect.__mul__ a b) (px, py)
  = Rect.__contains__ a (px, py) && Rect.__contains__ b (px, py).
Proof.
  intros Hwa Hha Hwb Hhb Hx Hy.
  destruct a as [ax ay aw ah], b as [bx by' bw bh]. cbn in *.
  apply eq_true_iff_eq.
  rewrite !andb_true_iff, !Z.leb_le. lia.
Qed.

Lemma cross_contains_witness :
  Rect.__contains__ (Rect.__mul__ (Rect.mk 0 0 10 10) (Rect.mk 5 5 10 10))
                    (7, 7)
  = Rect.__contains__ (Rect.mk 0 0 10 10) (7, 7)
    && Rect.__contains__ (Rect.mk 5 5 10 10) (7, 7).
Proof.
  apply (cross_contains (Rect.mk 0 0 10 10) (Rect.mk 5 5 10 10) 7 7);
    cbn; lia.
Defined.

(** Rectangles of non-negative size that are apart on an axis have an
    intersection of zero size, which still contains its own origin: the
    point at the larger of the two left edges and the larger of the two top
    edges, even though that point may be in neither operand. *)
Theorem cross_disjoint (a b : Rect.t) :
  0 <= Rect.w a -> 0 <= Rect.w b ->
  Rect.x a + Rect.w a < Rect.x b ->
  Rect.w (Rect.__mul__ a b) = 0
  /\ Rect.size (Rect.__mul__ a b) = 0
  /\ Rect.__contains__ (Rect.__mul__ a b) (Rect.xy (Rect.__mul__ a b))
     = true
  /\ Rect.__contains__ a (Rect.xy (Rect.__mul__ a b)) = false.
Proof.
  intros Hwa Hwb Hapart.
  destruct a as [ax ay aw ah], b as [bx by' bw bh].
  unfold Rect.__mul__, Rect._cross, Rect.size, Rect.xy. cbn in *.
  assert (Hw : Z.max 0 (aw + bw - Z.max (ax + aw) (bx + bw) + Z.min ax bx)
               = 0) by lia.
  rewrite Hw. split; [reflexivity|]. split; [lia|]. split.
  - rewrite !andb_true_iff, !Z.leb_le. lia.
  - apply not_true_iff_false. rewrite !andb_true_iff, !Z.leb_le. lia.
Qed.

Lemma cross_disjoint_witness :
  Rect.w (Rect.__mul__ (Rect.mk 0 0 10 10) (Rect.mk 20 0 5 5)) = 0
  /\ Rect.size (Rect.__mul__ (Rect.mk 0 0 10 10) (Rect.mk 20 0 5 5)) = 0
  /\ Rect.__contains__
       (Rect.__mul__ (Rect.mk 0 0 10 10) (Rect.mk 20 0 5 5))
       (Rect.xy (Rect.__mul__ (Rect.mk 0 0 10 10) (Rect.mk 20 0 5 5)))
     = true
  /\ Rect.__contains__ (Rect.mk 0 0 10 10)
       (Rect.xy (Rect.__mul__ (Rect.mk 0 0 10 10) (Rect.mk 20 0 5 5)))
     = false.
Proof.
  apply (cross_disjoint (Rect.mk 0 0 10 10) (Rect.mk 20 0 5 5)); cbn; lia.
Defined.

(** ** Opcodes *)

(** X7: no opcode sequence changes the default foreground index of a
    style state. *)
Theorem set_state_keeps_fg_default (s : SGRState.t) (ops : list Z) :
  SGRState.fg_default (SGRState.set_state s ops) = SGRState.fg_default s.
Proof. unfold SGRState.set_state. apply run_fg_default. Qed.

Lemma dispatch_font_range (s : SGRState.t) (l : SGRState.locals) (op : Z) :
  0 <= SGRState.font s <= 9 ->
  0 <= SGRState.font (fst (SGRState.dispatch s l op)) <= 9.
Proof.
  intros Hs. unfold SGRState.dispatch.
  repeat match goal with
         | |- context [if ?c then _ else _] => destruct c eqn:?
         end; cbn; lia.
Qed.

Lemma step_font_range (s : SGRState.t) (l : SGRState.locals) (op : Z) :
  0 <= SGRState.font s <= 9 ->
  0 <= SGRState.font (fst (SGRState.step (s, l) op)) <= 9.
Proof.
  intros Hs. unfold SGRState.step.
  destruct (SGRState.op38_256 l); [exact Hs|].
  destruct (negb (SGRState.op38_24 l =? 0)).
  - cbv zeta. destruct (SGRState.op38_24 l - 1 =? 0); exact Hs.
  - destruct (SGRState.op38 l).
    + destruct (op =? 5); [exact Hs|].
      destruct (op =? 2); [exact Hs|].
      apply dispatch_font_range. exact Hs.
    + apply dispatch_font_range. exact Hs.
Qed.

(** X8: the font slot stays in 0..9: starting from a slot in that range,
    no opcode sequence leads out of it. *)
Theorem set_state_font_range (s : SGRState.t) (ops : list Z) :
  0 <= SGRState.font s <= 9 ->
  0 <= SGRState.font (SGRState.set_state s ops) <= 9.
Proof.
  unfold SGRState.set_state. generalize SGRState.entry.
  revert s. induction ops as [|op ops IH]; intros s l Hs; [exact Hs|].
  cbn [SGRState.run fold_left].
  pose proof (step_font_range s l op Hs) as H1.
  destruct (SGRState.step (s, l) op) as [s1 l1]. apply (IH s1 l1 H1).
Qed.

Lemma set_state_font_range_witness :
  0 <= SGRState.font (SGRState.set_state SGRState.default [17; 38; 5; 200; 1])
    <= 9.
Proof.
  apply (set_state_font_range SGRState.default [17; 38; 5; 200; 1]).
  cbn. lia.
Defined.

Lemma dispatch_unrecognised (s : SGRState.t) (l : SGRState.locals) (op : Z) :
  recognised op = false -> SGRState.dispatch s l op = (s, l).
Proof.
  unfold recognised, SGRState.dispatch. intros H.
  repeat (apply orb_false_iff in H; destruct H as [H ?]).
  repeat match goal with
         | E : ?c = false |- context [if ?c then _ else _] => rewrite E
         end.
  reflexivity.
Qed.

(** X9: opcodes without a branch of their own (4 < op < 9, 20, 40, 98,
    negative ones, ...) leave the style state as it is: a sequence of such
    opcodes is a no-op. *)
Theorem set_state_unrecognised (s : SGRState.t) (ops : list Z) :
  Forall (fun op => recognised op = false) ops ->
  SGRState.set_state s ops = s.
Proof.
  intros Hall. unfold SGRState.set_state.
  assert (Hrun : SGRState.run (s, SGRState.entry) ops = (s, SGRState.entry)).
  { induction Hall as [|op ops Hop _ IH]; [reflexivity|].
    cbn [SGRState.run fold_left]. unfold SGRState.step at 2.
    cbn [SGRState.entry SGRState.op38 SGRState.op38_256 SGRState.op38_24
         Z.eqb negb].
    change (SGRState.mkLocals false false 0 []) with SGRState.entry.
    rewrite (dispatch_unrecognised s SGRState.entry op Hop). exact IH. }
  rewrite Hrun. reflexivity.
Qed.

Lemma set_state_unrecognised_witness :
  SGRState.set_state (SGRState.with_power SGRState.default 2) [5; 20; 98; -1]
  = SGRState.with_power SGRState.default 2.
Proof.
  apply (set_state_unrecognised (SGRState.with_power SGRState.default 2)
           [5; 20; 98; -1]).
  repeat constructor.
Defined.

(** Outside an extended-colour unit, the unit 38;5;n sets the
    foreground index to n, whatever n is, clears the RGB override and
    changes nothing else. *)
Theorem set_state_palette_unit (s : SGRState.t) (ops : list Z) (n : Z) :
  idle (pending ops) ->
  SGRState.set_state s (ops ++ [38; 5; n])
  = SGRState.with_fg_rgb
      (SGRState.with_fg (SGRState.set_state s ops) n) None.
Proof.
  intros (H38 & H256 & H24). unfold SGRState.set_state at 1.
  rewrite run_app, run_pending.
  destruct (pending ops) as [o38 o256 o24 tmp]. cbn in H38, H256, H24.
  subst. reflexivity.
Qed.

Lemma set_state_palette_unit_witness :
  SGRState.set_state SGRState.default ([1; 38; 2; 9; 9; 9] ++ [38; 5; 300])
  = SGRState.with_fg_rgb
      (SGRState.with_fg
         (SGRState.set_state SGRState.default [1; 38; 2; 9; 9; 9]) 300)
      None.
Proof.
  apply (set_state_palette_unit SGRState.default [1; 38; 2; 9; 9; 9] 300).
  repeat split.
Defined.

(** X10: outside an extended-colour unit, the unit 38;2;r;g;b changes the
    RGB override only, and sets it to the components collected so far in
    the call followed by r, g, b: to (r, g, b) when the call has seen no RGB
    unit before, to a longer tuple otherwise. *)
Theorem set_state_rgb_unit (s : SGRState.t) (ops : list Z) (r g b : Z) :
  idle (pending ops) ->
  SGRState.set_state s (ops ++ [38; 2; r; g; b])
  = SGRState.with_fg_rgb (SGRState.set_state s ops)
      (Some (SGRState.op38_24_tmp (pending ops) ++ [r; g; b])).
Proof.
  intros (H38 & H256 & H24). unfold SGRState.set_state at 1.
  rewrite run_app, run_pending.
  destruct (pending ops) as [o38 o256 o24 tmp]. cbn in H38, H256, H24.
  subst. cbn. rewrite <- !app_assoc. reflexivity.
Qed.

Lemma set_state_rgb_unit_witness :
  SGRState.set_state SGRState.default ([38; 2; 1; 2; 3] ++ [38; 2; 4; 5; 6])
  = SGRState.with_fg_rgb
      (SGRState.set_state SGRState.default [38; 2; 1; 2; 3])
      (Some (SGRState.op38_24_tmp (pending [38; 2; 1; 2; 3]) ++ [4; 5; 6])).
Proof.
  apply (set_state_rgb_unit SGRState.default [38; 2; 1; 2; 3] 4 5 6).
  repeat split.
Defined.

(** X11: two RGB units in one call leave an override of six components
    (the list of collected components is not emptied between units), and
    resolving the colour of such a state raises [TypeError]. *)
Theorem rgb_twice_type_error (st : TextDrawState.t) (ops : list Z)
  (r g b r' g' b' : Z) :
  pending ops = SGRState.entry ->
  SGRState.fg_rgb
    (SGRState.set_state (TextDrawState.sgr st)
       (ops ++ [38; 2; r; g; b; 38; 2; r'; g'; b']))
  = Some [r; g; b; r'; g'; b']
  /\ TextDrawState.current_color
       (TextDrawState.with_sgr st
          (SGRState.set_state (TextDrawState.sgr st)
             (ops ++ [38; 2; r; g; b; 38; 2; r'; g'; b'])))
     = Raise TypeError.
Proof.
  intros Hidle. rewrite (set_state_app_idle _ _ _ Hidle).
  split; reflexivity.
Qed.

Lemma rgb_twice_type_error_witness :
  SGRState.fg_rgb
    (SGRState.set_state (TextDrawState.sgr (sample_state 33))
       ([1] ++ [38; 2; 1; 2; 3; 38; 2; 4; 5; 6]))
  = Some [1; 2; 3; 4; 5; 6]
  /\ TextDrawState.current_color
       (TextDrawState.with_sgr (sample_state 33)
          (SGRState.set_state (TextDrawState.sgr (sample_state 33))
             ([1] ++ [38; 2; 1; 2; 3; 38; 2; 4; 5; 6])))
     = Raise TypeError.
Proof.
  apply (rgb_twice_type_error (sample_state 33) [1] 1 2 3 4 5 6).
  reflexivity.
Defined.

(** ** Font lookup *)

Lemma or_regular_configured (self : FontFamily.t)
  (x : option GenericFont) :
  In x (FontFamily._tuple self) ->
  In (FontFamily.or_regular self x) (FontFamily.configured self).
Proof.
  intros Hin. unfold FontFamily.configured. apply in_flat_map.
  destruct x as [f|]; cbn [FontFamily.or_regular].
  - exists (Some f). split; [exact Hin | left; reflexivity].
  - exists (Some (FontFamily.Regular self)). split; [|left; reflexivity].
    cbn. tauto.
Qed.

Lemma select_configured (self : FontFamily.t) (i : Z) :
  0 <= i <= 9 ->
  exists f, FontFamily._select self i = Ok f
            /\ In f (FontFamily.configured self).
Proof.
  intros Hi. unfold FontFamily._select.
  destruct (py_index_in_range
              (Some (FontFamily.Regular self) :: FontFamily._tuple self) i)
    as [x Hx]; [cbn; lia|].
  rewrite Hx. cbn [bind]. eexists. split; [reflexivity|].
  apply or_regular_configured.
  apply py_index_nth in Hx; [|lia]. destruct Hx as [Hn _].
  apply nth_error_In in Hn. destruct Hn as [<- | Hn]; [|exact Hn].
  cbn. tauto.
Qed.

(** X12: indexing a family never fails for a missing variant: for an index
    in 0..9 or a weight in 100..900 it returns a configured variant, and for
    every other index, the negative ones included, it raises
    [IndexError]. *)
Theorem getitem_domain (self : FontFamily.t) (i : Z) :
  ((0 <= i < 10 \/ 100 <= i <= 900) ->
   exists f, FontFamily.__getitem__ self i = Ok f
             /\ In f (FontFamily.configured self))
  /\ (~ (0 <= i < 10 \/ 100 <= i <= 900) ->
      FontFamily.__getitem__ self i = Raise IndexError).
Proof.
  unfold FontFamily.__getitem__. split.
  - intros [Hi | Hi].
    + replace ((0 <=? i) && (i <? 10)) with true by lia.
      apply select_configured. lia.
    + replace ((0 <=? i) && (i <? 10)) with false by lia.
      replace ((100 <=? i) && (i <=? 900)) with true by lia.
      apply select_configured.
      pose proof (round_div100_range i Hi). lia.
  - intros Hout.
    replace ((0 <=? i) && (i <? 10)) with false by lia.
    replace ((100 <=? i) && (i <=? 900)) with false by lia.
    reflexivity.
Qed.

Lemma getitem_domain_witness :
  (exists f, FontFamily.__getitem__ (regular_bold 1%N 2%N) 650 = Ok f
             /\ In f (FontFamily.configured (regular_bold 1%N 2%N)))
  /\ FontFamily.__getitem__ (regular_bold 1%N 2%N) (-1) = Raise IndexError.
Proof.
  split.
  - apply (proj1 (getitem_domain (regular_bold 1%N 2%N) 650)). lia.
  - apply (proj2 (getitem_domain (regular_bold 1%N 2%N) (-1))). lia.
Defined.

(** A weight that is a full hundred resolves like its slot, and a
    weight halfway between two slots resolves like the even one of the two
    (450 like slot 4, 550 like slot 6). *)
Theorem getitem_hundreds (self : FontFamily.t) (k : Z) :
  1 <= k <= 9 ->
  FontFamily.__getitem__ self (100 * k) = FontFamily.__getitem__ self k
  /\ (k <= 8 ->
      FontFamily.__getitem__ self (100 * k + 50)
      = FontFamily.__getitem__ self (if Z.even k then k else k + 1)).
Proof.
  intros Hk.
  assert (Hcases : k = 1 \/ k = 2 \/ k = 3 \/ k = 4 \/ k = 5 \/ k = 6
                   \/ k = 7 \/ k = 8 \/ k = 9) by lia.
  destruct Hcases as [E|[E|[E|[E|[E|[E|[E|[E|E]]]]]]]]; subst k;
    (split; [reflexivity | intros H8; try lia; reflexivity]).
Qed.

Lemma getitem_hundreds_witness :
  FontFamily.__getitem__ (regular_bold 1%N 2%N) (100 * 7)
  = FontFamily.__getitem__ (regular_bold 1%N 2%N) 7
  /\ (7 <= 8 ->
      FontFamily.__getitem__ (regular_bold 1%N 2%N) (100 * 7 + 50)
      = FontFamily.__getitem__ (regular_bold 1%N 2%N)
          (if Z.even 7 then 7 else 7 + 1)).
Proof. apply (getitem_hundreds (regular_bold 1%N 2%N) 7). lia. Defined.

Lemma py_find_In (a : N) (l : list N) :
  In a l ->
  exists i, py_find N.eqb a l = Ok i
            /\ nth_error l (Z.to_nat i) = Some a /\ 0 <= i < len l.
Proof.
  induction l as [|b r IH]; intros Hin; [destruct Hin|].
  cbn [py_find]. destruct (N.eqb_spec b a) as [-> | Hne].
  - exists 0. repeat split; unfold len; cbn [List.length]; lia.
  - destruct Hin as [E | Hin]; [congruence|].
    destruct (IH Hin) as (i & Hf & Hn & Hi). rewrite Hf. cbn [bind].
    exists (i + 1). split; [reflexivity|].
    replace (Z.to_nat (i + 1)) with (S (Z.to_nat i)) by lia.
    split; [exact Hn|]. unfold len in *. cbn [List.length]. lia.
Qed.

Lemma py_find_not_In (a : N) (l : list N) :
  ~ In a l -> py_find N.eqb a l = Raise ValueError.
Proof.
  induction l as [|b r IH]; intros Hnin; [reflexivity|].
  cbn [py_find]. destruct (N.eqb_spec b a) as [-> | Hne].
  - exfalso. apply Hnin. left. reflexivity.
  - rewrite IH; [reflexivity|]. intros H. apply Hnin. right. exact H.
Qed.

Lemma regular_configured (self : FontFamily.t) :
  In (FontFamily.Regular self) (FontFamily.configured self).
Proof.
  unfold FontFamily.configured. apply in_flat_map.
  exists (Some (FontFamily.Regular self)). split; [|left; reflexivity].
  cbn. tauto.
Qed.

Lemma find_relative_font_zero_gen (self : FontFamily.t)
  (font : option GenericFont) (a : GenericFont) :
  a = match font with
      | None => FontFamily.Regular self
      | Some x => x
      end ->
  In a (FontFamily.configured self) ->
  FontFamily.find_relative_font self 0 font = Ok a.
Proof.
  intros Ha Hin. unfold FontFamily.find_relative_font. cbv zeta.
  rewrite <- Ha.
  destruct (py_find_In a _ Hin) as (i & Hf & Hn & Hi).
  rewrite Hf. cbn [bind]. rewrite Z.add_0_r.
  replace (Z.max 0 (Z.min (len (FontFamily.configured self)) i)) with i
    by lia.
  unfold py_index.
  destruct (Z.ltb_spec i 0) as [H | H]; [lia|].
  destruct (Z.ltb_spec i 0) as [H' | H']; [lia|].
  rewrite Hn. reflexivity.
Qed.

(** X13: a relative lookup by zero steps returns the font it starts from,
    whenever that font is one of the configured variants; from the default
    start it returns the Regular variant of every family. *)
Theorem find_relative_font_zero (self : FontFamily.t) (f : GenericFont) :
  In f (FontFamily.configured self) ->
  FontFamily.find_relative_font self 0 (Some f) = Ok f
  /\ FontFamily.__add__ self 0 = Ok (FontFamily.Regular self).
Proof.
  intros Hin. split.
  - apply find_relative_font_zero_gen; [reflexivity | exact Hin].
  - apply find_relative_font_zero_gen;
      [reflexivity | apply regular_configured].
Qed.

Lemma find_relative_font_zero_witness :
  FontFamily.find_relative_font (regular_bold 1%N 2%N) 0 (Some 2%N) = Ok 2%N
  /\ FontFamily.__add__ (regular_bold 1%N 2%N) 0
     = Ok (FontFamily.Regular (regular_bold 1%N 2%N)).
Proof.
  apply (find_relative_font_zero (regular_bold 1%N 2%N) 2%N).
  cbn. tauto.
Defined.

(** A relative lookup that starts from a font the family does not
    hold raises [ValueError], whatever the number of steps. *)
Theorem find_relative_font_foreign (self : FontFamily.t) (delta : Z)
  (f : GenericFont) :
  ~ In f (FontFamily.configured self) ->
  FontFamily.find_relative_font self delta (Some f) = Raise ValueError.
Proof.
  intros Hnin. unfold FontFamily.find_relative_font. cbv zeta.
  rewrite (py_find_not_In f _ Hnin). reflexivity.
Qed.

Lemma find_relative_font_foreign_witness :
  FontFamily.find_relative_font (regular_bold 1%N 2%N) (-1) (Some 3%N)
  = Raise ValueError.
Proof.
  apply (find_relative_font_foreign (regular_bold 1%N 2%N) (-1) 3%N).
  cbn. intros [H | [H | H]]; try discriminate H. exact H.
Defined.

(** The walk inside the configured variants, at work: one step down from
    Bold in a family of Regular and Bold is Regular, and so are five. *)
Lemma find_relative_font_in_range_witness :
  exists f,
    FontFamily.find_relative_font (regular_bold 1%N 2%N) (-5) (Some 2%N)
    = Ok f
    /\ nth_error (FontFamily.configured (regular_bold 1%N 2%N))
         (Z.to_nat (Z.max 0 (1 + -5))) = Some f.
Proof.
  apply (find_relative_font_in_range (regular_bold 1%N 2%N) (-5)
           (Some 2%N) 1).
  - reflexivity.
  - vm_compute. reflexivity.
Defined.

(** X15: with no weight change pending and a valid font slot, the current
    font is the Regular variant of the family the slot selects: the italic
    family when italic is on and the slot has one, the upright family
    otherwise. *)
Theorem current_font_regular (st : TextDrawState.t)
  (upright : FontFamily.t) (slanted : option FontFamily.t) :
  py_index (TextDrawState.fonts st) (SGRState.font (TextDrawState.sgr st))
  = Ok (upright, slanted) ->
  SGRState.power (TextDrawState.sgr st) = 0 ->
  TextDrawState.current_font st
  = Ok (FontFamily.Regular
          (if SGRState.italic (TextDrawState.sgr st)
           then match slanted with Some f => f | None => upright end
           else upright)).
Proof.
  intros Hslot Hpow. unfold TextDrawState.current_font.
  rewrite Hslot, Hpow. cbn [bind fst snd].
  destruct (SGRState.italic (TextDrawState.sgr st)); [destruct slanted|];
    apply find_relative_font_zero_gen;
    solve [reflexivity | apply regular_configured].
Qed.

Lemma current_font_regular_witness :
  TextDrawState.current_font (sample_state 33)
  = Ok (FontFamily.Regular
          (if SGRState.italic (TextDrawState.sgr (sample_state 33))
           then match @None FontFamily.t with
                | Some f => f
                | None =>
                    FontFamily.mk 1%N None None None None None None None None
                end
           else FontFamily.mk 1%N None None None None None None None None)).
Proof.
  apply (current_font_regular (sample_state 33)
           (FontFamily.mk 1%N None None None None None None None None)
           None); reflexivity.
Defined.


(** ** Colours *)

(** X16: on the default palette the basic colour opcodes always resolve:
    30..37 to the entries 0..7 of the 16-colour table and 90..97 to its
    entries 8..15. *)
Theorem basic_colour_resolves (st : TextDrawState.t) (op : Z) :
  TextDrawState.palette st = Colordef.COLOR256_DEFAULT ->
  30 <= op <= 37 \/ 90 <= op <= 97 ->
  exists c,
    TextDrawState.current_color
      (TextDrawState.with_sgr st
         (SGRState.set_state (TextDrawState.sgr st) [op])) = Ok c
    /\ nth_error Colordef.COLOR16_DEFAULT
         (Z.to_nat (if op <? 40 then op - 30 else op - 82)) = Some c.
Proof.
  intros Hpal Hop.
  assert (Hcases : op = 30 \/ op = 31 \/ op = 32 \/ op = 33 \/ op = 34
                   \/ op = 35 \/ op = 36 \/ op = 37 \/ op = 90 \/ op = 91
                   \/ op = 92 \/ op = 93 \/ op = 94 \/ op = 95 \/ op = 96
                   \/ op = 97) by lia.
  unfold TextDrawState.current_color.
  repeat (destruct Hcases as [E | Hcases];
          [subst op; cbn; rewrite Hpal; eexists; split; reflexivity|]).
  subst op. cbn. rewrite Hpal. eexists. split; reflexivity.
Qed.

Lemma basic_colour_resolves_witness :
  exists c,
    TextDrawState.current_color
      (TextDrawState.with_sgr (sample_state 33)
         (SGRState.set_state (TextDrawState.sgr (sample_state 33)) [91]))
    = Ok c
    /\ nth_error Colordef.COLOR16_DEFAULT
         (Z.to_nat (if 91 <? 40 then 91 - 30 else 91 - 82)) = Some c.
Proof.
  apply (basic_colour_resolves (sample_state 33) 91); [reflexivity | lia].
Defined.

Lemma py_index_domain {A : Type} (l : list A) (i : Z) :
  (- len l <= i < len l -> exists a, py_index l i = Ok a)
  /\ (~ (- len l <= i < len l) -> py_index l i = Raise IndexError).
Proof.
  unfold py_index. pose proof (len_nonneg l) as Hl. split.
  - intros Hi. destruct (Z.ltb_spec i 0) as [Hneg | Hpos].
    + destruct (Z.ltb_spec (i + len l) 0) as [H | H]; [lia|].
      destruct (nth_error l (Z.to_nat (i + len l))) eqn:Hn; [eauto|].
      apply nth_error_None in Hn. unfold len in *. lia.
    + destruct (Z.ltb_spec i 0) as [H | H]; [lia|].
      destruct (nth_error l (Z.to_nat i)) eqn:Hn; [eauto|].
      apply nth_error_None in Hn. unfold len in *. lia.
  - intros Hi. destruct (Z.ltb_spec i 0) as [Hneg | Hpos].
    + destruct (Z.ltb_spec (i + len l) 0) as [H | H]; [reflexivity|]. lia.
    + destruct (Z.ltb_spec i 0) as [H | H]; [lia|].
      destruct (nth_error l (Z.to_nat i)) eqn:Hn; [|reflexivity].
      assert (Hs : nth_error l (Z.to_nat i) <> None) by congruence.
      apply nth_error_Some in Hs. unfold len in *. lia.
Qed.

(** X17: the unit 38;5;n stores any n, and the colour is only looked up
    when it is resolved: on the default palette of 256 entries it resolves
    for n in -256..255 (a negative n counts from the end) and raises
    [IndexError] for every other n. *)
Theorem palette_index_resolves (st : TextDrawState.t) (ops : list Z)
  (n : Z) :
  TextDrawState.palette st = Colordef.COLOR256_DEFAULT ->
  idle (pending ops) ->
  (-256 <= n < 256 ->
   exists c,
     TextDrawState.current_color
       (TextDrawState.with_sgr st
          (SGRState.set_state (TextDrawState.sgr st) (ops ++ [38; 5; n])))
     = Ok c)
  /\ (~ (-256 <= n < 256) ->
      TextDrawState.current_color
        (TextDrawState.with_sgr st
           (SGRState.set_state (TextDrawState.sgr st) (ops ++ [38; 5; n])))
      = Raise IndexError).
Proof.
  intros Hpal (H38 & H256 & H24).
  assert (Hst : SGRState.set_state (TextDrawState.sgr st)
                  (ops ++ [38; 5; n])
                = SGRState.with_fg_rgb
                    (SGRState.with_fg
                       (SGRState.set_state (TextDrawState.sgr st) ops) n)
                    None).
  { unfold SGRState.set_state at 1. rewrite run_app, run_pending.
    destruct (pending ops) as [o38 o256 o24 tmp]. cbn in H38, H256, H24.
    subst. reflexivity. }
  rewrite Hst. unfold TextDrawState.current_color.
  cbn [TextDrawState.with_sgr TextDrawState.sgr TextDrawState.palette
       SGRState.with_fg_rgb SGRState.with_fg SGRState.fg_rgb SGRState.fg].
  rewrite Hpal.
  change 256 with (len Colordef.COLOR256_DEFAULT).
  change (-256) with (- len Colordef.COLOR256_DEFAULT).
  apply py_index_domain.
Qed.

Lemma palette_index_resolves_witness :
  (-256 <= 255 < 256 ->
   exists c,
     TextDrawState.current_color
       (TextDrawState.with_sgr (sample_state 33)
          (SGRState.set_state (TextDrawState.sgr (sample_state 33))
             ([1] ++ [38; 5; 255])))
     = Ok c)
  /\ (~ (-256 <= 255 < 256) ->
      TextDrawState.current_color
        (TextDrawState.with_sgr (sample_state 33)
           (SGRState.set_state (TextDrawState.sgr (sample_state 33))
              ([1] ++ [38; 5; 255])))
      = Raise IndexError).
Proof.
  apply (palette_index_resolves (sample_state 33) [1] 255);
    [reflexivity | repeat split].
Defined.

(** ** Tokens *)

Lemma first_index_prefix {A : Type} (p : A -> bool) (l : list A) :
  forall i, first_index p l = Some i ->
            Forall (fun c => p c = false) (firstn i l).
Proof.
  induction l as [|a r IH]; intros i; cbn [first_index]; [discriminate|].
  destruct (p a) eqn:Hp.
  - intros E. injection E as <-. constructor.
  - destruct (first_index p r) as [j|]; [|discriminate].
    intros E. injection E as <-. cbn [firstn]. constructor; auto.
Qed.

Lemma first_index_none {A : Type} (p : A -> bool) (l : list A) :
  first_index p l = None -> Forall (fun c => p c = false) l.
Proof.
  induction l as [|a r IH]; cbn [first_index]; [constructor|].
  destruct (p a) eqn:Hp; [discriminate|].
  destruct (first_index p r) as [j|]; [discriminate|].
  intros _. constructor; auto.
Qed.

Lemma skipn_nth {A : Type} (l : list A) :
  forall (n : nat) (c : A),
    nth_error l n = Some c -> skipn n l = c :: skipn (S n) l.
Proof.
  induction l as [|a r IH]; intros [|n] c; cbn; try discriminate.
  - intros E. injection E as ->. reflexivity.
  - intros E. apply (IH n c E).
Qed.

Lemma split_token_nonempty (east_asian_width : char -> Textwork.eaw)
  (isspace : char -> bool) (tok : str) :
  split_token east_asian_width isspace tok -> tok <> [].
Proof.
  intros [H | [(c & -> & _) | [H _]]]; try discriminate; [|exact H].
  intros ->. discriminate H.
Qed.

Section Tokens.

Variable east_asian_width : char -> Textwork.eaw.
Variable isspace : char -> bool.

Lemma split_loop_class (t : str) (base : Z) (res out : list str) :
  0 <= base <= len t ->
  Forall (split_token east_asian_width isspace) res ->
  Textwork.split_loop east_asian_width isspace t base res = Ok out ->
  Forall (split_token east_asian_width isspace) out.
Proof.
  funelim (Textwork.split_loop east_asian_width isspace t base res);
    intros Hbase Hres Hout.
  - injection Hout as <-. exact Hres.
  - discriminate Hout.
  - destruct (py_index_nth t base c ltac:(lia) e) as [Hn Hlt].
    apply H; [lia| |exact Hout].
    apply Forall_app. split; [exact Hres|]. constructor; [|constructor].
    pose proof e0 as Hzero.
    rewrite py_slice_from_skipn in Hzero by lia.
    rewrite (skipn_nth t _ c Hn) in Hzero.
    destruct (char_eqb c ESC) eqn:Hesc.
    + exfalso. revert Hzero. unfold findcsiend.
      destruct (first_index _ _); unfold len; cbn [List.length]; lia.
    + right. left. exists c. split; [reflexivity|]. split; [|exact Hesc].
      revert Hzero. unfold Textwork.findword. cbn [first_index].
      unfold Textwork.word_end at 1. rewrite Hesc, orb_false_r.
      destruct (Textwork.iseaw east_asian_width c || isspace c);
        [reflexivity|].
      destruct (first_index _ _); unfold len; cbn [List.length]; lia.
  - destruct (py_index_nth t base c ltac:(lia) e) as [Hn Hlt].
    set (w := if char_eqb c ESC
              then findcsiend (py_slice_from t base)
              else Textwork.findword east_asian_width isspace
                     (py_slice_from t base)) in *.
    assert (Hlen : len (py_slice_from t base) = len t - base).
    { rewrite py_slice_from_skipn by lia. unfold len.
      rewrite length_skipn. unfold len in Hlt. lia. }
    assert (Hw : 0 < w <= len t - base).
    { assert (Hu : w <= len t - base).
      { subst w. destruct (char_eqb c ESC).
        - pose proof (findcsiend_le (py_slice_from t base)). lia.
        - pose proof (findword_le east_asian_width isspace
                        (py_slice_from t base)). lia. }
      assert (Hl : 0 <= w).
      { subst w. unfold findcsiend, Textwork.findword, len.
        destruct (char_eqb c ESC);
          match goal with
          | |- context [first_index ?p ?l] => destruct (first_index p l)
          end; lia. }
      lia. }
    apply H; [lia| |exact Hout].
    apply Forall_app. split; [exact Hres|]. constructor; [|constructor].
    rewrite py_slice_firstn by lia.
    replace (base + w - base) with w by lia.
    pose proof (skipn_nth t _ c Hn) as Hsk.
    assert (Hwdef : w = if char_eqb c ESC
                        then findcsiend (py_slice_from t base)
                        else Textwork.findword east_asian_width isspace
                               (py_slice_from t base)) by reflexivity.
    rewrite py_slice_from_skipn in Hwdef by lia.
    destruct (char_eqb c ESC) eqn:Hesc.
    + left. rewrite Hsk.
      destruct (Z.to_nat w) eqn:Hz; [lia|]. cbn. exact Hesc.
    + right. right. unfold Textwork.findword in Hwdef.
      destruct (first_index _ (skipn (Z.to_nat base) t)) as [i|] eqn:Hfi.
      * split.
        -- rewrite Hsk. destruct (Z.to_nat w) eqn:Hz; [lia|]. discriminate.
        -- rewrite Hwdef, Nat2Z.id. apply first_index_prefix. exact Hfi.
      * rewrite Hwdef. unfold len. rewrite Nat2Z.id, firstn_all. split.
        -- rewrite Hsk. discriminate.
        -- apply first_index_none. exact Hfi.
Qed.

(** X18: every token [split] returns is of one of three kinds: a style
    token, starting with the escape character; a single wide or whitespace
    character; or a non-empty word without any wide, whitespace or escape
    character.  In particular no token is empty. *)
Theorem split_tokens (t : str) :
  exists toks,
    Textwork.split east_asian_width isspace t = Ok toks
    /\ Forall (split_token east_asian_width isspace) toks
    /\ Forall (fun tok => tok <> []) toks.
Proof.
  destruct (split_loop_concat east_asian_width isspace t 0 [])
    as (toks & Hs & _); [pose proof (len_nonneg t); lia | reflexivity |].
  exists toks. split; [exact Hs|].
  assert (Hcl : Forall (split_token east_asian_width isspace) toks).
  { apply (split_loop_class t 0 [] toks);
      [pose proof (len_nonneg t); lia | constructor | exact Hs]. }
  split; [exact Hcl|].
  eapply Forall_impl; [|exact Hcl].
  intros tok. apply split_token_nonempty.
Qed.

End Tokens.

(** ** Binding, again *)

Lemma py_index_head (wd : str) :
  wd <> [] -> exists c r, wd = c :: r /\ py_index wd 0 = Ok c.
Proof.
  destruct wd as [|c r]; [congruence|]. intros _. exists c, r.
  split; reflexivity.
Qed.

Lemma Forall_snoc_nonempty (l : list str) (x wd : str) :
  Forall (fun e => e <> []) (l ++ [x]) -> wd <> [] ->
  Forall (fun e => e <> []) (l ++ [x ++ wd])
  /\ Forall (fun e => e <> []) ((l ++ [x]) ++ [wd]).
Proof.
  intros Hall Hwd. apply Forall_app in Hall. destruct Hall as [Hl Hx].
  split.
  - apply Forall_app. split; [exact Hl|]. constructor; [|constructor].
    intros E. apply app_eq_nil in E. destruct E as [_ E]. contradiction.
  - apply Forall_app. split.
    + apply Forall_app. split; assumption.
    + constructor; [exact Hwd | constructor].
Qed.

(** One iteration on a non-empty token never raises. *)
Lemma combine_step_total (b : Textwork.binding) (wd : str) :
  Textwork.res b <> [] -> wd <> [] ->
  Forall (fun e => e <> []) (Textwork.res b) ->
  exists b',
    Textwork.combine_step b wd = Ok b'
    /\ Textwork.res b' <> []
    /\ Forall (fun e => e <> []) (Textwork.res b').
Proof.
  intros Hne Hwd Hall. destruct b as [r p rbf ps].
  cbn [Textwork.res] in Hne, Hall.
  destruct (exists_last Hne) as [l [x ->]].
  destruct (py_index_head wd Hwd) as (c & tl & Ewd & Hc).
  destruct (Forall_snoc_nonempty l x wd Hall Hwd) as [Habs Happ].
  assert (Habs2 : Forall (fun e => e <> []) (l ++ [(x ++ wd) ++ wd])).
  { apply (Forall_snoc_nonempty l (x ++ wd) wd Habs Hwd). }
  assert (Happ2 : Forall (fun e => e <> []) ((l ++ [x ++ wd]) ++ [wd])).
  { apply (Forall_snoc_nonempty l (x ++ wd) wd Habs Hwd). }
  unfold Textwork.combine_step.
  cbn [Textwork.res Textwork.prb Textwork.rb Textwork.psgr].
  rewrite Hc. cbn [bind].
  destruct (char_eqb c ESC).
  { eexists. split; [reflexivity|]. cbn [Textwork.res]. split; [|exact Happ].
    intros E. apply app_eq_nil in E. destruct E as [_ E]. discriminate E. }
  rewrite !append_last_snoc.
  destruct rbf, ps, p;
    cbn [bind Textwork.res Textwork.prb Textwork.rb Textwork.psgr andb
         negb];
    destruct ((len wd =? 1) && Textwork._ispunc wd);
    cbn [bind Textwork.res Textwork.prb Textwork.rb Textwork.psgr andb
         negb];
    try (destruct (Textwork._islb wd); cbn [andb negb]);
    cbn [bind Textwork.res Textwork.prb Textwork.rb Textwork.psgr negb];
    rewrite ?append_last_snoc;
    cbn [bind Textwork.res Textwork.prb Textwork.rb Textwork.psgr negb];
    (eexists; split; [reflexivity|]); cbn [Textwork.res];
    (split; [intros E; apply app_eq_nil in E; destruct E as [_ E];
             discriminate E |]);
    assumption.
Qed.

Lemma combine_loop_total (ts : list str) :
  forall b : Textwork.binding,
    Textwork.res b <> [] ->
    Forall (fun e => e <> []) (Textwork.res b) ->
    Forall (fun e => e <> []) ts ->
    exists b',
      Textwork.combine_loop b ts = Ok b'
      /\ Forall (fun e => e <> []) (Textwork.res b').
Proof.
  induction ts as [|wd ts IH]; intros b Hne Hall Hts.
  - exists b. split; [reflexivity | exact Hall].
  - apply Forall_cons_iff in Hts. destruct Hts as [Hwd Hts].
    destruct (combine_step_total b wd Hne Hwd Hall) as (b1 & Hs & Hne1 & H1).
    cbn [Textwork.combine_loop]. rewrite Hs. cbn [bind].
    apply (IH b1 Hne1 H1 Hts).
Qed.

Lemma combine_total_gen (ts : list str) :
  Forall (fun e => e <> []) ts ->
  exists out,
    Textwork.combine ts = Ok out /\ Forall (fun e => e <> []) out.
Proof.
  intros Hts. destruct ts as [|t0 r].
  - exists []. split; [reflexivity | constructor].
  - apply Forall_cons_iff in Hts. destruct Hts as [H0 Hr].
    destruct (py_index_head t0 H0) as (c & tl & E0 & Hc).
    unfold Textwork.combine. rewrite Hc. cbn [bind].
    edestruct (combine_loop_total r) as (b' & Hloop & Hall);
      [| |exact Hr|].
    3: { rewrite Hloop. cbn [bind]. eexists. split; [reflexivity|].
         exact Hall. }
    + cbn. discriminate.
    + cbn. constructor; [exact H0 | constructor].
Qed.

(** X19: on tokens none of which is empty [combine] never raises, and none
    of its entries is empty. *)
Theorem combine_total (ts : list str) :
  Forall (fun e => e <> []) ts ->
  exists out,
    Textwork.combine ts = Ok out /\ Forall (fun e => e <> []) out.
Proof. apply combine_total_gen. Qed.

Lemma combine_total_witness :
  exists out,
    Textwork.combine [lit "("; lit "a"; sgr_bold; lit ","] = Ok out
    /\ Forall (fun e => e <> []) out.
Proof.
  apply (combine_total [lit "("; lit "a"; sgr_bold; lit ","]).
  repeat constructor; discriminate.
Defined.

(** X20: segmentation followed by binding never raises: for every text the
    front end of the layout returns a token stream, whose entries are not
    empty. *)
Theorem split_combine_total (east_asian_width : char -> Textwork.eaw)
  (isspace : char -> bool) (text : str) :
  exists toks sp,
    Textwork.split east_asian_width isspace text = Ok toks
    /\ Textwork.combine toks = Ok sp
    /\ Forall (fun e => e <> []) sp.
Proof.
  destruct (split_loop_concat east_asian_width isspace text 0 [])
    as (toks & Hs & _); [pose proof (len_nonneg text); lia | reflexivity |].
  assert (Hne : Forall (fun e => e <> []) toks).
  { eapply Forall_impl;
      [intros tok; apply (split_token_nonempty east_asian_width isspace)|].
    apply (split_loop_class east_asian_width isspace text 0 [] toks);
      [pose proof (len_nonneg text); lia | constructor | exact Hs]. }
  destruct (combine_total_gen toks Hne) as (sp & Hc & Hsp).
  exists toks, sp. repeat split; assumption.
Qed.

(** Without a pending right-bind and without punctuation tokens the loop
    only appends. *)
Lemma combine_loop_plain (ts : list str) :
  forall b : Textwork.binding,
    Textwork.prb b = false -> Textwork.rb b = false ->
    Forall (fun wd => wd <> []
                      /\ (len wd =? 1) && Textwork._ispunc wd = false) ts ->
    exists b',
      Textwork.combine_loop b ts = Ok b'
      /\ Textwork.res b' = Textwork.res b ++ ts.
Proof.
  induction ts as [|wd ts IH]; intros b Hprb Hrb Hts.
  - exists b. split; [reflexivity|]. rewrite app_nil_r. reflexivity.
  - apply Forall_cons_iff in Hts. destruct Hts as [[Hwd Hnp] Hts].
    destruct (py_index_head wd Hwd) as (c & tl & Ewd & Hc).
    destruct b as [r p rbf ps]. cbn in Hprb, Hrb. subst p rbf.
    cbn [Textwork.combine_loop]. unfold Textwork.combine_step.
    cbn [Textwork.res Textwork.prb Textwork.rb Textwork.psgr].
    rewrite Hc, Hnp. cbn [bind andb negb Textwork.res Textwork.prb
                          Textwork.rb Textwork.psgr].
    destruct (char_eqb c ESC); cbn [bind];
      match goal with
      | |- exists b', Textwork.combine_loop ?b1 ts = _ /\ _ =>
          destruct (IH b1 eq_refl eq_refl Hts) as (b' & Hl & Hr)
      end;
      exists b'; (split; [exact Hl|]); rewrite Hr; cbn [Textwork.res];
      rewrite <- app_assoc; reflexivity.
Qed.

(** X21: a token stream without empty tokens and without single-character
    punctuation tokens goes through [combine] unchanged. *)
Theorem combine_plain (ts : list str) :
  Forall (fun wd => wd <> []
                    /\ (len wd =? 1) && Textwork._ispunc wd = false) ts ->
  Textwork.combine ts = Ok ts.
Proof.
  intros Hts. destruct ts as [|t0 r]; [reflexivity|].
  apply Forall_cons_iff in Hts. destruct Hts as [[H0 Hnp] Hr].
  destruct (py_index_head t0 H0) as (c & tl & E0 & Hc).
  unfold Textwork.combine. rewrite Hc. cbn [bind].
  assert (Hrb : (len t0 =? 1) && Textwork._isrb t0 = false).
  { destruct (len t0 =? 1) eqn:Hlen; [|reflexivity]. cbn [andb] in *.
    destruct (Textwork._isrb t0) eqn:Hrb; [|reflexivity].
    rewrite (isrb_ispunc t0 Hlen Hrb) in Hnp. discriminate Hnp. }
  rewrite Hrb.
  destruct (combine_loop_plain r
              (Textwork.mkBinding [t0] false false (char_eqb c ESC))
              eq_refl eq_refl Hr) as (b' & Hl & Hres).
  rewrite Hl. cbn [bind]. rewrite Hres. reflexivity.
Qed.

Lemma combine_plain_witness :
  Textwork.combine [lit "to"; lit " "; sgr_bold; lit "be"; lit " "; lit "a,b"]
  = Ok [lit "to"; lit " "; sgr_bold; lit "be"; lit " "; lit "a,b"].
Proof.
  apply (combine_plain
           [lit "to"; lit " "; sgr_bold; lit "be"; lit " "; lit "a,b"]).
  repeat constructor; discriminate.
Defined.

Lemma filter_snoc {A : Type} (f : A -> bool) (l : list A) (a : A) :
  filter f (l ++ [a]) = filter f l ++ (if f a then [a] else []).
Proof. rewrite filter_app. reflexivity. Qed.

Lemma is_style_app (x wd : str) :
  x <> [] -> is_style (x ++ wd) = is_style x.
Proof. destruct x; [congruence | reflexivity]. Qed.

Lemma combine_step_styles (b b' : Textwork.binding) (wd : str) :
  last_plain b ->
  Textwork.combine_step b wd = Ok b' ->
  filter is_style (Textwork.res b')
  = filter is_style (Textwork.res b) ++ (if is_style wd then [wd] else [])
  /\ last_plain b'.
Proof.
  intros (l & x & Hres & Hx & Hprb & Hps). destruct b as [r p rbf ps].
  cbn [Textwork.res Textwork.prb Textwork.psgr] in Hres, Hprb, Hps.
  subst r p. unfold Textwork.combine_step.
  cbn [Textwork.res Textwork.prb Textwork.rb Textwork.psgr].
  destruct wd as [|c tl]; [discriminate|].
  change (py_index (c :: tl) 0) with (@Ok char c). cbn [bind is_style].
  assert (Hxw : forall y, y <> [] -> y ++ c :: tl <> []).
  { intros y _ E. apply app_eq_nil in E. destruct E as [_ E].
    discriminate E. }
  destruct (char_eqb c ESC) eqn:Hesc.
  { intros E. injection E as <-. cbn [Textwork.res]. split.
    - rewrite filter_snoc. cbn [is_style]. rewrite Hesc. reflexivity.
    - exists (l ++ [x]), (c :: tl). cbn. repeat split; try discriminate. }
  rewrite !append_last_snoc.
  destruct rbf, ps;
    cbn [bind Textwork.res Textwork.prb Textwork.rb Textwork.psgr andb
         negb];
    destruct ((len (c :: tl) =? 1) && Textwork._ispunc (c :: tl));
    cbn [bind Textwork.res Textwork.prb Textwork.rb Textwork.psgr andb
         negb];
    try (destruct (Textwork._islb (c :: tl)); cbn [andb negb]);
    cbn [bind Textwork.res Textwork.prb Textwork.rb Textwork.psgr negb];
    rewrite ?append_last_snoc;
    cbn [bind Textwork.res Textwork.prb Textwork.rb Textwork.psgr negb];
    intros E; injection E as <-; cbn [Textwork.res];
    rewrite ?filter_snoc, ?app_nil_r;
    rewrite ?is_style_app by auto;
    try rewrite (Hps eq_refl);
    cbn [is_style]; rewrite ?Hesc, ?app_nil_r;
    (split; [reflexivity|]);
    eexists; eexists;
    cbn [Textwork.res Textwork.prb Textwork.psgr];
    (split; [reflexivity|]);
    (split; [solve [auto | discriminate]|]);
    (split; [reflexivity|]);
    intros _; rewrite ?is_style_app by auto;
    try rewrite (Hps eq_refl); cbn [is_style]; rewrite ?Hesc; reflexivity.
Qed.

Lemma combine_loop_styles (ts : list str) :
  forall b b' : Textwork.binding,
    last_plain b ->
    Textwork.combine_loop b ts = Ok b' ->
    filter is_style (Textwork.res b')
    = filter is_style (Textwork.res b) ++ filter is_style ts.
Proof.
  induction ts as [|wd ts IH]; intros b b' Hb Hloop.
  - injection Hloop as <-. rewrite app_nil_r. reflexivity.
  - cbn [Textwork.combine_loop] in Hloop.
    destruct (Textwork.combine_step b wd) as [b1|e] eqn:Hstep;
      cbn [bind] in Hloop; [|discriminate].
    destruct (combine_step_styles b b1 wd Hb Hstep) as [Hf Hb1].
    rewrite (IH b1 b' Hb1 Hloop), Hf, <- app_assoc. cbn [filter].
    destruct (is_style wd); reflexivity.
Qed.

(** X22: binding keeps the style tokens: they come out as entries of their
    own, unchanged and in their order, and no other entry starts with the
    escape character. *)
Theorem combine_keeps_styles (ts out : list str) :
  Textwork.combine ts = Ok out ->
  filter is_style out = filter is_style ts.
Proof.
  destruct ts as [|t0 r]; [intros E; injection E as <-; reflexivity|].
  unfold Textwork.combine. destruct t0 as [|c tl]; [discriminate|].
  change (py_index (c :: tl) 0) with (@Ok char c). cbn [bind].
  match goal with
  | |- bind ?m _ = _ -> _ => destruct m as [b|e] eqn:Hloop
  end; cbn [bind]; [|discriminate].
  intros E. injection E as <-.
  apply combine_loop_styles in Hloop.
  - rewrite Hloop. cbn [Textwork.res filter is_style app].
    destruct (char_eqb c ESC); reflexivity.
  - exists [], (c :: tl). cbn. repeat split; try discriminate.
    intros H. exact H.
Qed.

Lemma combine_keeps_styles_witness :
  filter is_style [lit "(a"; sgr_bold; lit ","; sgr_underline; lit "b"]
  = filter is_style
      [lit "("; lit "a"; sgr_bold; lit ","; sgr_underline; lit "b"].
Proof.
  apply (combine_keeps_styles
           [lit "("; lit "a"; sgr_bold; lit ","; sgr_underline; lit "b"]
           [lit "(a"; sgr_bold; lit ","; sgr_underline; lit "b"]).
  reflexivity.
Defined.

(** Binding only regroups, at work: "a", " ", "," has no token that meets
    both branches, and comes out as "a", " ,". *)
Lemma combine_concat_witness :
  List.concat [lit "a"; lit " ,"] = List.concat [lit "a"; lit " "; lit ","].
Proof.
  apply (combine_concat (lit "a") [lit " "; lit ","] [lit "a"; lit " ,"]
           97%N); reflexivity.
Defined.

(** ** The layout call as a whole *)

Lemma extends_refl (p : RichCanvas.painter) : extends p p.
Proof.
  unfold extends. repeat split. exists []. rewrite app_nil_r. reflexivity.
Qed.

Lemma extends_trans (p q r : RichCanvas.painter) :
  extends p q -> extends q r -> extends p r.
Proof.
  unfold extends.
  intros (H1 & H2 & H3 & H4 & H5 & H6 & H7 & ps & Hps)
         (K1 & K2 & K3 & K4 & K5 & K6 & K7 & qs & Hqs).
  repeat split; try congruence.
  exists (ps ++ qs). rewrite Hqs, Hps, app_assoc. reflexivity.
Qed.

Lemma extends_curpos (st : TextDrawState.t) (out : list RichCanvas.paint)
  (xy : Q * Q) :
  extends (st, out) (TextDrawState.with_curpos st xy, out).
Proof.
  unfold extends. cbn. repeat split. exists []. rewrite app_nil_r.
  reflexivity.
Qed.

Section Frame.

Variable east_asian_width : char -> Textwork.eaw.
Variable isspace : char -> bool.
Variable py_int : str -> result Z.
Variable textbbox : GenericFont -> str -> Z * Z.

Lemma draw_item_extends (breadcrumb n : Z) (p p' : RichCanvas.painter)
  (item : str * Z) :
  RichCanvas.draw_item py_int breadcrumb n p item = Ok p' -> extends p p'.
Proof.
  destruct p as [st out], item as [wd wi]. unfold RichCanvas.draw_item.
  destruct (py_index wd 0) as [c|e]; cbn [bind]; [|discriminate].
  destruct (char_eqb c ESC).
  - destruct (RichCanvas.mapM py_int _) as [params|e]; cbn [bind];
      [|discriminate].
    intros E. injection E as <-. unfold extends. cbn.
    repeat split.
    + apply set_state_fg_default_gen.
    + exists []. rewrite app_nil_r. reflexivity.
  - destruct (wi =? 0); [discriminate|].
    destruct (TextDrawState.curpos st) as [cx cy].
    destruct (TextDrawState.current_color st) as [color|e]; cbn [bind];
      [|discriminate].
    destruct (TextDrawState.current_font st) as [font|e]; cbn [bind];
      [|discriminate].
    intros E. injection E as <-. unfold extends. cbn.
    repeat split. eexists. reflexivity.
Qed.

Lemma draw_items_extends (breadcrumb n : Z) (q : list (str * Z)) :
  forall p p' : RichCanvas.painter,
    RichCanvas.draw_items py_int breadcrumb n p q = Ok p' -> extends p p'.
Proof.
  induction q as [|item q IH]; intros p p'; cbn [RichCanvas.draw_items].
  - intros E. injection E as <-. apply extends_refl.
  - destruct (RichCanvas.draw_item py_int breadcrumb n p item) as [p1|e]
      eqn:H1; cbn [bind]; [|discriminate].
    intros H2. apply (extends_trans p p1 p').
    + apply (draw_item_extends _ _ _ _ _ H1).
    + apply (IH _ _ H2).
Qed.

Lemma text_step_extends (justify : bool) (l l' : RichCanvas.line)
  (wd : str) :
  RichCanvas.text_step isspace py_int textbbox justify l wd = Ok l' ->
  extends (RichCanvas.pen l) (RichCanvas.pen l').
Proof.
  unfold RichCanvas.text_step.
  destruct (py_index wd 0) as [c|e]; cbn [bind]; [|discriminate].
  destruct (char_eqb c ESC).
  { intros E. injection E as <-. apply extends_refl. }
  destruct (TextDrawState.current_font (fst (RichCanvas.pen l)))
    as [font|e]; cbn [bind]; [|discriminate].
  destruct (textbbox font wd) as [w h].
  assert (Hl1 : forall l1,
             extends (RichCanvas.pen l) (RichCanvas.pen l1) ->
             (if negb (truthy (RichCanvas.rq l1))
                 && negb (truthy (RichCanvas.strip isspace wd))
                 && negb (RichCanvas.lwr l1)
              then Ok l1
              else
                let rw2 := RichCanvas.rw l1 + w in
                let rq2 := RichCanvas.rq l1 ++ [(wd, w)] in
                if truthy (RichCanvas.strip isspace wd)
                then Ok (RichCanvas.mkLine rq2 rw2 (RichCanvas.rh l1) 0 0
                           false (RichCanvas.sty l1) (RichCanvas.pen l1))
                else Ok (RichCanvas.mkLine rq2 rw2 (RichCanvas.rh l1)
                           (RichCanvas.ws l1 + 1) (RichCanvas.wsw l1 + w)
                           (RichCanvas.lwr l1) (RichCanvas.sty l1)
                           (RichCanvas.pen l1))) = Ok l' ->
             extends (RichCanvas.pen l) (RichCanvas.pen l')).
  { intros l1 Hext. cbv zeta.
    destruct (negb (truthy (RichCanvas.rq l1))
              && negb (truthy (RichCanvas.strip isspace wd))
              && negb (RichCanvas.lwr l1));
      [|destruct (truthy (RichCanvas.strip isspace wd))];
      intros E; injection E as <-; exact Hext. }
  destruct (RichCanvas.rw l + w >? _).
  - destruct (RichCanvas.pop_n _ _) as [q|e]; cbn [bind]; [|discriminate].
    destruct (RichCanvas._draw_text py_int (RichCanvas.pen l) q _ _)
      as [[st' out']|e] eqn:Hdraw; cbn [bind]; [|discriminate].
    destruct (TextDrawState.curpos st') as [cx cy]. cbn [bind].
    apply Hl1. cbn [RichCanvas.pen].
    apply (extends_trans _ (st', out')).
    + apply (draw_items_extends _ _ _ _ _ Hdraw).
    + apply extends_curpos.
  - cbn [bind]. apply Hl1. apply extends_refl.
Qed.

Lemma text_loop_extends (justify : bool) (sp : list str) :
  forall l l' : RichCanvas.line,
    RichCanvas.text_loop isspace py_int textbbox justify l sp = Ok l' ->
    extends (RichCanvas.pen l) (RichCanvas.pen l').
Proof.
  induction sp as [|wd sp IH]; intros l l'; cbn [RichCanvas.text_loop].
  - intros E. injection E as <-. apply extends_refl.
  - destruct (RichCanvas.text_step isspace py_int textbbox justify l wd)
      as [l1|e] eqn:H1; cbn [bind]; [|discriminate].
    intros H2. apply (extends_trans _ (RichCanvas.pen l1)).
    + apply (text_step_extends _ _ _ _ H1).
    + apply (IH _ _ H2).
Qed.

(** X24: a layout call that returns has changed nothing of the draw state
    but the cursor and the style state: the region, the fonts, the line
    height, the spacing, the palette and the default foreground index are
    as before; the paint calls made before are still there, the new ones
    appended; and the cursor is back at x = 0. *)
Theorem text_extends (p p' : RichCanvas.painter) (text : str)
  (justify : bool) :
  RichCanvas._text east_asian_width isspace py_int textbbox p text justify
  = Ok p' ->
  extends p p' /\ fst (TextDrawState.curpos (fst p')) = 0%Q.
Proof.
  unfold RichCanvas._text.
  destruct (Textwork.split east_asian_width isspace text) as [toks|e];
    cbn [bind]; [|discriminate].
  destruct (Textwork.combine toks) as [sp|e]; cbn [bind]; [|discriminate].
  destruct (RichCanvas.text_loop isspace py_int textbbox justify
              (RichCanvas.fresh p) sp) as [l|e] eqn:Hloop;
    cbn [bind]; [|discriminate].
  apply text_loop_extends in Hloop. cbn [RichCanvas.fresh RichCanvas.pen]
    in Hloop.
  unfold RichCanvas.finish.
  destruct (RichCanvas._draw_text py_int (RichCanvas.pen l)
              (RichCanvas.rq l) 0 0) as [[st out]|e] eqn:Hdraw;
    cbn [bind]; [|discriminate].
  destruct (TextDrawState.curpos st) as [cx cy].
  intros E. injection E as <-. split; [|reflexivity].
  apply (extends_trans p (RichCanvas.pen l)); [exact Hloop|].
  apply (extends_trans _ (st, out)).
  - apply (draw_items_extends _ _ _ _ _ Hdraw).
  - apply extends_curpos.
Qed.

End Frame.

Lemma text_extends_witness :
  extends (sample_state 33, [])
          (sample_result 33 (lit "a b " ++ sgr_underline ++ lit "c"))
  /\ fst (TextDrawState.curpos
            (fst (sample_result 33
                    (lit "a b " ++ sgr_underline ++ lit "c")))) = 0%Q.
Proof.
  apply (text_extends sample_eaw sample_isspace sample_int sample_textbbox
           (sample_state 33, [])
           (sample_result 33 (lit "a b " ++ sgr_underline ++ lit "c"))
           (lit "a b " ++ sgr_underline ++ lit "c") true).
  vm_compute. reflexivity.
Defined.

Section Edges.

Variable east_asian_width : char -> Textwork.eaw.
Variable isspace : char -> bool.
Variable py_int : str -> result Z.
Variable textbbox : GenericFont -> str -> Z * Z.

(** An empty hard line paints nothing and feeds one line: the cursor
    goes to x = 0 and down by the line height (if positive) plus the
    spacing, whatever the provider and the style state. *)
Theorem text_empty (st : TextDrawState.t) (out : list RichCanvas.paint)
  (justify : bool) :
  RichCanvas._text east_asian_width isspace py_int textbbox (st, out) []
    justify
  = Ok (TextDrawState.with_curpos st
          (0, snd (TextDrawState.curpos st)
              + inject_Z (Z.max 0 (TextDrawState.lineheight st))
              + inject_Z (TextDrawState.spacing st))%Q,
        out).
Proof.
  unfold RichCanvas._text.
  assert (Hs : Textwork.split east_asian_width isspace [] = Ok []).
  { unfold Textwork.split. simp split_loop. reflexivity. }
  rewrite Hs. cbn [bind Textwork.combine RichCanvas.text_loop].
  unfold RichCanvas.finish, RichCanvas._draw_text, RichCanvas.fresh.
  cbn [RichCanvas.pen RichCanvas.rq RichCanvas.rh RichCanvas.draw_items
       bind].
  destruct (TextDrawState.curpos st) as [cx cy]. reflexivity.
Qed.

(** X25: a queue that holds a text token of measured width zero is never
    painted to the end: [_draw_text] raises, whatever precedes the token. *)
Theorem draw_text_zero_width (p : RichCanvas.painter)
  (pre post : list (str * Z)) (wd : str) (breadcrumb nstyle : Z) :
  text_token wd ->
  exists e,
    RichCanvas._draw_text py_int p (pre ++ (wd, 0) :: post) breadcrumb
      nstyle = Raise e.
Proof.
  intros (c & Hc & Hesc). unfold RichCanvas._draw_text.
  generalize (Z.max 1 (len (pre ++ (wd, 0) :: post) - 1 - nstyle)).
  intros n. revert p.
  induction pre as [|item pre IH]; intros p;
    cbn [app RichCanvas.draw_items].
  - exists RuntimeError. destruct p as [st out].
    unfold RichCanvas.draw_item. rewrite Hc. cbn [bind]. rewrite Hesc.
    reflexivity.
  - destruct (RichCanvas.draw_item py_int breadcrumb n p item) as [p1|e];
      cbn [bind]; [apply IH | exists e; reflexivity].
Qed.

(** X27: when a token wider than what is left arrives while the queue is
    empty and the whitespace counter still holds the blanks stripped from
    the line before, the strip pops from the empty queue and the layout
    call ends in [IndexError]. *)
Theorem text_step_stale_strip (justify : bool) (l : RichCanvas.line)
  (wd : str) (font : GenericFont) :
  text_token wd ->
  RichCanvas.rq l = [] ->
  0 < RichCanvas.ws l ->
  TextDrawState.current_font (fst (RichCanvas.pen l)) = Ok font ->
  Rect.w (TextDrawState.land (fst (RichCanvas.pen l)))
    < RichCanvas.rw l + fst (textbbox font wd) ->
  RichCanvas.text_step isspace py_int textbbox justify l wd
  = Raise IndexError.
Proof.
  intros (c & Hc & Hesc) Hq Hws Hfont Hover. unfold RichCanvas.text_step.
  rewrite Hc. cbn [bind]. rewrite Hesc, Hfont. cbn [bind].
  destruct (textbbox font wd) as [w h]. cbn [fst] in Hover.
  destruct (Z.gtb_spec (RichCanvas.rw l + w)
              (Rect.w (TextDrawState.land (fst (RichCanvas.pen l)))))
    as [_ | H]; [|lia].
  rewrite Hq. destruct (Z.to_nat (RichCanvas.ws l)) eqn:Hn; [lia|].
  reflexivity.
Qed.

End Edges.

Lemma draw_text_zero_width_witness :
  exists e,
    RichCanvas._draw_text sample_int (sample_state 33, [])
      ([(lit "a", 10)] ++ (lit "b", 0) :: [(lit "c", 10)]) 0 0 = Raise e.
Proof.
  apply (draw_text_zero_width sample_int (sample_state 33, [])
           [(lit "a", 10)] [(lit "c", 10)] (lit "b") 0 0).
  exists 98%N. split; reflexivity.
Defined.

(** Loop variables as a break leaves them when the overflowing token is a
    blank that follows a blank ("a", " ", " " on a region 15 units wide):
    the queue is empty and the counters of the stripped blank are still
    there. *)
Lemma text_step_stale_strip_witness :
  RichCanvas.text_step sample_isspace sample_int sample_textbbox true
    (RichCanvas.mkLine [] 0 0 1 5 false 0 (sample_state 15, []))
    (lit "bb")
  = Raise IndexError.
Proof.
  apply (text_step_stale_strip sample_isspace sample_int sample_textbbox true
           (RichCanvas.mkLine [] 0 0 1 5 false 0 (sample_state 15, []))
           (lit "bb") 1%N).
  - exists 98%N. split; reflexivity.
  - reflexivity.
  - reflexivity.
  - reflexivity.
  - reflexivity.
Defined.

(** Such loop variables do arise: the layout of "a  bb" on a region 15
    units wide, with the sample metrics, ends in that error. *)
Example text_stale_strip_sample :
  sample_text 15 (lit "a  bb") true = Raise IndexError.
Proof. vm_compute. reflexivity. Qed.

(** ** Escape sequences *)

Lemma csi_split_some (c : char) (r : str) (b : Csi.CSIBlock) (rest : str) :
  Csi.csi_match (c :: r) = Some (b, rest) ->
  Csi.csi_split (c :: r) = b :: Csi.csi_split rest.
Proof.
  intros Hm. simp csi_split.
  destruct (inspect (Csi.csi_match (c :: r))) as [o Ho].
  destruct o as [[b' rest']|]; simp csi_split; congruence.
Qed.

Lemma csi_split_none (c : char) (r : str) :
  Csi.csi_match (c :: r) = None ->
  Csi.csi_split (c :: r) = Csi.csi_split r.
Proof.
  intros Hm. simp csi_split.
  destruct (inspect (Csi.csi_match (c :: r))) as [o Ho].
  destruct o as [[b' rest']|]; simp csi_split; congruence.
Qed.

Lemma span_spec (p : char -> bool) (s : str) :
  forall a b, Csi.span p s = (a, b) ->
              s = a ++ b /\ Forall (fun c => p c = true) a.
Proof.
  induction s as [|c r IH]; intros a b; cbn [Csi.span].
  - intros E. injection E as <- <-. split; [reflexivity | constructor].
  - destruct (p c) eqn:Hp.
    + destruct (Csi.span p r) as [a' b'] eqn:Hs.
      intros E. injection E as <- <-.
      destruct (IH a' b' eq_refl) as [-> Hall].
      split; [reflexivity | constructor; assumption].
    + intros E. injection E as <- <-. split; [reflexivity | constructor].
Qed.

Lemma span_app_stop (p : char -> bool) (a rest : str) :
  Forall (fun c => p c = true) a -> stops p rest ->
  Csi.span p (a ++ rest) = (a, rest).
Proof.
  intros Ha Hstop. induction Ha as [|c a Hc _ IH]; cbn [app Csi.span].
  - destruct rest as [|c r]; [reflexivity|]. cbn in Hstop.
    cbn [Csi.span]. rewrite Hstop. reflexivity.
  - rewrite Hc, IH. reflexivity.
Qed.

Lemma csi_match_valid (s : str) (b : Csi.CSIBlock) (rest : str) :
  Csi.csi_match s = Some (b, rest) ->
  csi_valid b /\ s = csi_render b ++ rest.
Proof.
  destruct s as [|e [|b0 r]]; cbn [Csi.csi_match]; try discriminate.
  destruct (char_eqb e ESC) eqn:He; [|discriminate].
  destruct (char_eqb b0 91%N) eqn:Hb; [|discriminate]. cbn [andb].
  apply N.eqb_eq in He, Hb. subst e b0.
  destruct (Csi.span Csi.is_param_byte r) as [params r1] eqn:Hp.
  destruct r1 as [|o r2]; [discriminate|].
  destruct (is_final_byte o) eqn:Ho; [|discriminate].
  destruct (Csi.span Csi.not_esc r2) as [txt r3] eqn:Ht.
  intros E. injection E as <- <-.
  destruct (span_spec _ _ _ _ Hp) as [-> Hpar].
  destruct (span_spec _ _ _ _ Ht) as [-> Htxt].
  unfold csi_valid, csi_render. cbn. split.
  - split; [reflexivity|]. split; [exact Hpar|]. split; [eauto | exact Htxt].
  - rewrite <- !app_assoc. reflexivity.
Qed.

Lemma param_not_final (c : char) :
  Csi.is_param_byte c = true -> is_final_byte c = false.
Proof.
  unfold Csi.is_param_byte, is_final_byte. intros H.
  apply andb_true_iff in H. destruct H as [_ H]. apply N.leb_le in H.
  destruct (N.leb_spec 64 c) as [H' | H']; [lia | reflexivity].
Qed.

Lemma csi_match_render (b : Csi.CSIBlock) (rest : str) :
  csi_valid b -> stops Csi.not_esc rest ->
  Csi.csi_match (csi_render b ++ rest) = Some (b, rest).
Proof.
  intros (Hcc & Hpar & (o & Hop & Ho) & Htxt) Hstop.
  destruct b as [bcc bpar bop btxt]. unfold csi_render. cbn in *.
  subst bcc bop. cbn [app Csi.csi_match].
  change (char_eqb ESC ESC && char_eqb 91%N 91%N) with true. cbv iota.
  rewrite <- !app_assoc. cbn [app].
  rewrite (span_app_stop Csi.is_param_byte bpar (o :: btxt ++ rest) Hpar).
  - rewrite Ho. rewrite (span_app_stop Csi.not_esc btxt rest Htxt Hstop).
    reflexivity.
  - cbn. destruct (Csi.is_param_byte o) eqn:Hpo; [|reflexivity].
    rewrite (param_not_final o Hpo) in Ho. discriminate Ho.
Qed.

Lemma csi_split_plain (plain s : str) :
  Forall (fun c => Csi.not_esc c = true) plain ->
  Csi.csi_split (plain ++ s) = Csi.csi_split s.
Proof.
  intros Hplain. induction Hplain as [|c plain Hc _ IH]; [reflexivity|].
  cbn [app]. rewrite csi_split_none; [exact IH|].
  unfold Csi.not_esc in Hc. apply negb_true_iff in Hc.
  cbn [Csi.csi_match]. destruct (plain ++ s); [reflexivity|].
  rewrite Hc. reflexivity.
Qed.

Lemma csi_render_stops (bs : list Csi.CSIBlock) :
  Forall csi_valid bs ->
  stops Csi.not_esc (List.concat (map csi_render bs)).
Proof.
  intros Hbs. destruct Hbs as [|b bs (Hcc & _) _]; [exact I|].
  cbn [map List.concat]. unfold csi_render. rewrite Hcc. reflexivity.
Qed.

(** X28: escape sequences written out and read back: for blocks as the
    expression can match them, [csi_split] on the concatenation of their
    sequences and texts returns those blocks, whatever plain text without
    the escape character precedes them (that text is dropped). *)
Theorem csi_split_render (plain : str) (bs : list Csi.CSIBlock) :
  Forall (fun c => Csi.not_esc c = true) plain ->
  Forall csi_valid bs ->
  Csi.csi_split (plain ++ List.concat (map csi_render bs)) = bs.
Proof.
  intros Hplain Hbs. rewrite (csi_split_plain _ _ Hplain). clear Hplain.
  induction Hbs as [|b bs Hb Hbs IH]; [reflexivity|].
  cbn [map List.concat].
  pose proof (csi_match_render b _ Hb (csi_render_stops bs Hbs)) as Hm.
  destruct (csi_render b ++ List.concat (map csi_render bs)) as [|c r]
    eqn:E; [discriminate Hm|].
  rewrite (csi_split_some c r b _ Hm), IH. reflexivity.
Qed.

Lemma csi_split_render_witness :
  Csi.csi_split
    (lit "ab"
     ++ List.concat
          (map csi_render
             [Csi.mkCSIBlock (ESC :: lit "[1;31m") (lit "1;31") (lit "m")
                (lit "hi");
              Csi.mkCSIBlock (ESC :: lit "[0m") (lit "0") (lit "m") []]))
  = [Csi.mkCSIBlock (ESC :: lit "[1;31m") (lit "1;31") (lit "m") (lit "hi");
     Csi.mkCSIBlock (ESC :: lit "[0m") (lit "0") (lit "m") []].
Proof.
  apply (csi_split_render (lit "ab")
           [Csi.mkCSIBlock (ESC :: lit "[1;31m") (lit "1;31") (lit "m")
              (lit "hi");
            Csi.mkCSIBlock (ESC :: lit "[0m") (lit "0") (lit "m") []]).
  - repeat constructor.
  - repeat constructor; cbn; eauto.
Defined.

(** X29: every block [csi_split] returns is well formed: its sequence is
    the escape character, an opening bracket, its parameter bytes and its
    operation byte, its parameters are parameter bytes, its operation is one
    operation byte, and its text holds no escape character. *)
Theorem csi_split_valid (text : str) :
  Forall csi_valid (Csi.csi_split text).
Proof.
  funelim (Csi.csi_split text).
  - constructor.
  - constructor; [|assumption].
    match goal with
    | Hm : Csi.csi_match _ = Some _ |- _ =>
        destruct (csi_match_valid _ _ _ Hm) as [Hv _]; exact Hv
    end.
  - assumption.
Qed.

Lemma first_index_app_stop {A : Type} (p : A -> bool) (a : list A) (o : A)
  (r : list A) :
  Forall (fun c => p c = false) a -> p o = true ->
  first_index p (a ++ o :: r) = Some (List.length a).
Proof.
  intros Ha Ho. induction Ha as [|c a Hc _ IH]; cbn [app first_index].
  - rewrite Ho. reflexivity.
  - rewrite Hc, IH. reflexivity.
Qed.

(** X30: the two scanners agree: on a well-formed escape sequence,
    whatever follows it, [findcsiend] returns the length of the sequence
    the expression matches. *)
Theorem findcsiend_csi (b : Csi.CSIBlock) (rest : str) :
  csi_valid b ->
  findcsiend (Csi.cc b ++ rest) = len (Csi.cc b).
Proof.
  intros (Hcc & Hpar & (o & Hop & Ho) & _). rewrite Hcc, Hop.
  unfold findcsiend, py_slice_from, clamp_index. cbn [Z.ltb Z.compare].
  replace (Z.to_nat (Z.min 2 (len ((ESC :: 91%N :: Csi.par b ++ [o])
                                   ++ rest)))) with 2%nat
    by (unfold len; cbn [app List.length]; lia).
  cbn [app skipn]. rewrite <- app_assoc. cbn [app].
  rewrite first_index_app_stop.
  - unfold len. cbn [List.length]. rewrite length_app. cbn [List.length].
    lia.
  - eapply Forall_impl; [|exact Hpar]. intros c. apply param_not_final.
  - exact Ho.
Qed.

Lemma findcsiend_csi_witness :
  findcsiend
    (Csi.cc (Csi.mkCSIBlock (ESC :: lit "[1;31m") (lit "1;31") (lit "m")
               (lit "hi")) ++ lit "hi there")
  = len (Csi.cc (Csi.mkCSIBlock (ESC :: lit "[1;31m") (lit "1;31") (lit "m")
                   (lit "hi"))).
Proof.
  apply (findcsiend_csi
           (Csi.mkCSIBlock (ESC :: lit "[1;31m") (lit "1;31") (lit "m")
              (lit "hi"))
           (lit "hi there")).
  repeat split; try (repeat constructor); cbn; eauto.
Defined.
